(** * NLWeb post-ranking stage and Google CSE retrieval client

    A shallow embedding of
      - [code/python/core/post_ranking.py]
        ([PostRanking.do], [PostRanking.check_and_send_map_message],
        [SummarizeResults.do]) and
      - [code/python/retrieval_providers/google_custom_search_engine_client.py]
        ([GoogleCustomSearchClient.search], [search_all_sites], ...)
    together with the properties of these functions that the specification
    states.

    Layout: [Py] holds the fragment of Python's dynamic values and builtins
    that the two files use; [Eff] the state, trace and exception monad in
    which the coroutines are written; [PostRanking] and [GoogleCSE] the two
    source files; [PostRankingProps] and [GoogleCSEProps] what is proved of
    them. *)

From Stdlib Require Import List String Ascii ZArith QArith Lia Bool Arith.
From Stdlib Require DecimalString.
Import ListNotations.

Open Scope string_scope.
Open Scope list_scope.

(* ===================================================================== *)
(** ** Python values and the builtins the sources rely on *)
(* ===================================================================== *)

Module Py.

(** The values that reach the two modules are JSON-shaped: ranked results and
    HTTP responses are decoded JSON.  Numbers are kept integral (no statement
    below looks at a float); dictionaries keep their insertion order and have
    string keys, lookup takes the first binding of a key. *)
#[warnings="-register-all"]
Inductive pyval : Type :=
| PNone
| PBool (b : bool)
| PInt (z : Z)
| PStr (s : string)
| PList (l : list pyval)
| PDict (d : list (string * pyval)).

Definition pydict : Type := list (string * pyval).

(** Exceptions, all of them subclasses of [Exception] (what an
    [except Exception] clause catches).  [HTTPError] stands for
    [httpx.HTTPError] and its subclasses. *)
Inductive exn : Type :=
| TypeError
| KeyError
| AttributeError
| ValueError
| RuntimeError
| IndexError
| HTTPError
| OtherError (name : string).

(** Outcome of an expression or call that may raise. *)
Inductive outcome (A : Type) : Type :=
| Ok (a : A)
| Raise (e : exn).
Arguments Ok {A} a.
Arguments Raise {A} e.

Definition rbind {A B} (r : outcome A) (f : A -> outcome B) : outcome B :=
  match r with
  | Ok a => f a
  | Raise e => Raise e
  end.

(** *** Truth value testing: [bool(v)] *)
Definition truthy (v : pyval) : bool :=
  match v with
  | PNone => false
  | PBool b => b
  | PInt z => negb (z =? 0)%Z
  | PStr s => negb (String.eqb s EmptyString)
  | PList l => match l with [] => false | _ => true end
  | PDict d => match d with [] => false | _ => true end
  end.

(** [a or b]: the first operand when it is truthy, else the second. *)
Definition py_or (a b : pyval) : pyval := if truthy a then a else b.

(** *** isinstance *)
Definition is_dict (v : pyval) : bool :=
  match v with PDict _ => true | _ => false end.
Definition is_str (v : pyval) : bool :=
  match v with PStr _ => true | _ => false end.

(** *** Strings *)

(** [sub in s] on strings. *)
Fixpoint str_in (sub s : string) : bool :=
  String.prefix sub s ||
  match s with
  | EmptyString => false
  | String _ s' => str_in sub s'
  end.

(** [s.startswith(p)] *)
Definition startswith (s p : string) : bool := String.prefix p s.

Definition rev_string (s : string) : string :=
  string_of_list_ascii (rev (list_ascii_of_string s)).

(** [s.split(sep)] for a non-empty separator: a left-to-right scan.  [skip]
    counts the characters of a separator occurrence that remain to be
    dropped, [cur] is the current piece, reversed. *)
Fixpoint split_go (sep : string) (skip : nat) (cur : string) (s : string)
  : list string :=
  match s with
  | EmptyString => [rev_string cur]
  | String c s' =>
      match skip with
      | S k => split_go sep k cur s'
      | O =>
          if String.prefix sep s
          then rev_string cur :: split_go sep (String.length sep - 1) EmptyString s'
          else split_go sep O (String c cur) s'
      end
  end.

Definition split (s sep : string) : list string := split_go sep 0 EmptyString s.

(** The part of [s] before the first occurrence of [sep]; all of [s] when
    [sep] does not occur. *)
Fixpoint before (sep s : string) : string :=
  match s with
  | EmptyString => EmptyString
  | String c s' =>
      if String.prefix sep s then EmptyString else String c (before sep s')
  end.

(** [sep.join(parts)]: every part has to be a [str]. *)
Fixpoint join (sep : string) (parts : list pyval) : outcome string :=
  match parts with
  | [] => Ok EmptyString
  | PStr s :: rest =>
      match rest with
      | [] => Ok s
      | _ => rbind (join sep rest) (fun t => Ok (s ++ sep ++ t)%string)
      end
  | _ :: _ => Raise TypeError
  end.

(** Joining pieces that are known to be strings (used by [repr]). *)
Fixpoint concat_with (sep : string) (parts : list string) : string :=
  match parts with
  | [] => EmptyString
  | [s] => s
  | s :: rest => (s ++ sep ++ concat_with sep rest)%string
  end.

(** *** [str] and [repr] *)

Definition str_of_int (z : Z) : string :=
  DecimalString.NilZero.string_of_int (Z.to_int z).

Definition quote1 : ascii := ascii_of_nat 39.   (* ' *)
Definition quote2 : ascii := ascii_of_nat 34.   (* double quote *)
Definition backslash : ascii := ascii_of_nat 92.

Definition has_char (c : ascii) (s : string) : bool :=
  existsb (Ascii.eqb c) (list_ascii_of_string s).

Definition hex_digit (n : nat) : ascii :=
  if (n <? 10)%nat then ascii_of_nat (48 + n) else ascii_of_nat (87 + n).

(** One character of a [repr] of a string delimited by [q].  A character is
    a code point below 256; of those above 127, the C1 controls, the
    no-break space (160) and the soft hyphen (173) are not printable and are
    escaped, the others are kept. *)
Definition repr_char (q c : ascii) : string :=
  let n := nat_of_ascii c in
  if Ascii.eqb c q || Ascii.eqb c backslash then String backslash (String c EmptyString)
  else if (n =? 9)%nat then String backslash "t"
  else if (n =? 10)%nat then String backslash "n"
  else if (n =? 13)%nat then String backslash "r"
  else if (n <? 32)%nat || (n =? 127)%nat
          || ((128 <=? n)%nat && (n <=? 160)%nat) || (n =? 173)%nat
       then String backslash
              (String "x" (String (hex_digit (n / 16)) (String (hex_digit (n mod 16)) EmptyString)))
  else String c EmptyString.

(** [repr(s)]: single quotes unless the text has a single quote and no
    double quote. *)
Definition repr_str (s : string) : string :=
  let q := if has_char quote1 s && negb (has_char quote2 s) then quote2 else quote1 in
  String q (String.concat EmptyString (map (repr_char q) (list_ascii_of_string s))
            ++ String q EmptyString)%string.

Fixpoint repr (v : pyval) : string :=
  match v with
  | PNone => "None"
  | PBool true => "True"
  | PBool false => "False"
  | PInt z => str_of_int z
  | PStr s => repr_str s
  | PList l => ("[" ++ concat_with ", " (map repr l) ++ "]")%string
  | PDict d =>
      ("{" ++ concat_with ", "
                (map (fun kv : string * pyval =>
                        let (k, x) := kv in (repr_str k ++ ": " ++ repr x)%string) d)
           ++ "}")%string
  end.

(** [str(v)] *)
Definition str (v : pyval) : string :=
  match v with
  | PStr s => s
  | _ => repr v
  end.

(** *** Dictionaries *)

Fixpoint lookup (k : string) (d : pydict) : option pyval :=
  match d with
  | [] => None
  | (k', v) :: d' => if String.eqb k k' then Some v else lookup k d'
  end.

(** [k in d] *)
Definition has_key (k : string) (d : pydict) : bool :=
  match lookup k d with Some _ => true | None => false end.

(** [d.get(k)] *)
Definition dict_get (d : pydict) (k : string) : pyval :=
  match lookup k d with Some v => v | None => PNone end.

(** [d.get(k, default)] *)
Definition dict_get_default (d : pydict) (k : string) (dflt : pyval) : pyval :=
  match lookup k d with Some v => v | None => dflt end.

(** [d[k] = v]: overwrite in place, or append a new key. *)
Fixpoint dict_set (d : pydict) (k : string) (v : pyval) : pydict :=
  match d with
  | [] => [(k, v)]
  | (k', v') :: d' =>
      if String.eqb k k' then (k', v) :: d' else (k', v') :: dict_set d' k v
  end.

(** [d.update(e)] *)
Definition dict_update (d e : pydict) : pydict :=
  fold_left (fun acc kv => dict_set acc (fst kv) (snd kv)) e d.

(** *** Operators on arbitrary values *)

(** [k in v] for a string [k]: key membership on a dict, element membership
    on a list, substring on a string; other values are not iterable. *)
Definition contains_str (k : string) (v : pyval) : outcome bool :=
  match v with
  | PDict d => Ok (has_key k d)
  | PList l =>
      Ok (existsb (fun x => match x with PStr s => String.eqb k s | _ => false end) l)
  | PStr s => Ok (str_in k s)
  | _ => Raise TypeError
  end.

(** [v[k]] for a string [k]. *)
Definition getitem_str (v : pyval) (k : string) : outcome pyval :=
  match v with
  | PDict d => match lookup k d with Some x => Ok x | None => Raise KeyError end
  | _ => Raise TypeError
  end.

(** [v.get(k, default)]: only dictionaries have the method. *)
Definition get_method (v : pyval) (k : string) (dflt : pyval) : outcome pyval :=
  match v with
  | PDict d => Ok (dict_get_default d k dflt)
  | _ => Raise AttributeError
  end.

(** [l[:n]] on a list. *)
Definition slice_to {A} (l : list A) (n : Z) : list A :=
  if (0 <=? n)%Z then firstn (Z.to_nat n) l
  else firstn (List.length l - Z.to_nat (- n)) l.

(** [s.rstrip(c)] for a single character [c]. *)
Fixpoint rstrip_char (c : ascii) (s : string) : string :=
  match s with
  | EmptyString => EmptyString
  | String a s' =>
      match rstrip_char c s' with
      | EmptyString => if Ascii.eqb a c then EmptyString else String a EmptyString
      | kept => String a kept
      end
  end.

End Py.

(* ===================================================================== *)
(** ** Coroutines as state, trace and exception *)
(* ===================================================================== *)

(** A coroutine of the sources runs on one cooperative task: its awaits are
    sequential.  It is a function from the state of the object it works on to
    the state it leaves, the external events it caused (in order), and a
    value or a raised exception. *)
Module Eff.
Import Py.

Section Monad.
Variables St Ev : Type.

Definition M (A : Type) : Type := St -> St * list Ev * outcome A.

Definition ret {A} (a : A) : M A := fun s => (s, [], Ok a).

Definition bind {A B} (m : M A) (f : A -> M B) : M B :=
  fun s =>
    match m s with
    | (s1, t1, Ok a) =>
        match f a s1 with
        | (s2, t2, r) => (s2, t1 ++ t2, r)
        end
    | (s1, t1, Raise e) => (s1, t1, Raise e)
    end.

Definition raise {A} (e : exn) : M A := fun s => (s, [], Raise e).

(** An expression that may raise, evaluated in place. *)
Definition lift {A} (r : outcome A) : M A := fun s => (s, [], r).

Definition get : M St := fun s => (s, [], Ok s).
Definition put (s' : St) : M unit := fun _ => (s', [], Ok tt).
Definition modify (f : St -> St) : M unit := fun s => (f s, [], Ok tt).
Definition emit (e : Ev) : M unit := fun s => (s, [e], Ok tt).

(** [try: body  except Exception as e: handler(e)] *)
Definition try_except {A} (body : M A) (handler : exn -> M A) : M A :=
  fun s =>
    match body s with
    | (s1, t1, Raise e) =>
        match handler e s1 with
        | (s2, t2, r) => (s2, t1 ++ t2, r)
        end
    | done => done
    end.

Definition final {A} (r : St * list Ev * outcome A) : St := fst (fst r).
Definition trace {A} (r : St * list Ev * outcome A) : list Ev := snd (fst r).
Definition result {A} (r : St * list Ev * outcome A) : outcome A := snd r.
End Monad.

Arguments ret {St Ev A} a.
Arguments bind {St Ev A B} m f.
Arguments raise {St Ev A} e.
Arguments lift {St Ev A} r.
Arguments get {St Ev}.
Arguments put {St Ev} s'.
Arguments modify {St Ev} f.
Arguments emit {St Ev} e.
Arguments try_except {St Ev A} body handler.
Arguments final {St Ev A} r.
Arguments trace {St Ev A} r.
Arguments result {St Ev A} r.

Declare Scope eff_scope.
Delimit Scope eff_scope with eff.
Notation "x <- m ;; k" := (bind m (fun x => k))
  (at level 61, m at next level, right associativity) : eff_scope.
Notation "m ;; k" := (bind m (fun _ => k))
  (at level 61, right associativity) : eff_scope.

End Eff.

(* ===================================================================== *)
(** ** core/post_ranking.py *)
(* ===================================================================== *)

Module PostRanking.
Import Py Eff.
Open Scope eff_scope.

(** *** The handler and its collaborators *)

(** [core.schemas] is not part of the sources at hand; of its two
    enumerations only the members that [SummarizeResults.do] names are
    needed. *)
Inductive SenderType : Type := ASSISTANT.
Inductive MessageType : Type := RESULT.

Record Message : Type := mkMessage {
  sender_type : SenderType;
  message_type : MessageType;
  content : pyval;
  msg_conversation_id : pyval
}.

(** The attributes of the handler that the module reads or writes.
    [final_ranked_answers] is [None] when the attribute does not exist (the
    map check reads it through [getattr] with a default); [summary] is
    [None] until it is assigned; [connection_alive] is
    [connection_alive_event.is_set()]. *)
Record handler : Type := mkHandler {
  connection_alive : bool;
  query_done : bool;
  generate_mode : string;
  final_ranked_answers : option (list pyval);
  summary : option pyval;
  messages : list Message;
  conversation_id : pyval
}.

Definition set_query_done (b : bool) (h : handler) : handler :=
  mkHandler (connection_alive h) b (generate_mode h) (final_ranked_answers h)
            (summary h) (messages h) (conversation_id h).

Definition set_final_ranked_answers (l : list pyval) (h : handler) : handler :=
  mkHandler (connection_alive h) (query_done h) (generate_mode h) (Some l)
            (summary h) (messages h) (conversation_id h).

Definition set_summary (v : pyval) (h : handler) : handler :=
  mkHandler (connection_alive h) (query_done h) (generate_mode h)
            (final_ranked_answers h) (Some v) (messages h) (conversation_id h).

Definition append_message (m : Message) (h : handler) : handler :=
  mkHandler (connection_alive h) (query_done h) (generate_mode h)
            (final_ranked_answers h) (summary h) (messages h ++ [m])
            (conversation_id h).

Inductive level : Type := DEBUG | INFO | ERROR.

(** The logging calls of the module, one constructor per call site, with the
    values interpolated into the text. *)
Inductive log_site : Type :=
| NoResultsToCheck
| MissingSchemaObject
| FoundWithAddresses (count total : nat)
| SendingResultsMap (count : nat)
| MapMessageContent (map_message : pyval)
| ResultsMapSent
| FailedToSendResultsMap (e : exn)
| NotSendingMap (count total : nat)
| ErrorCheckingMap (e : exn)
| NoSummaryResponse
| SendingSummary (payload : pyval).

(** What the coroutines do to the world outside the handler.  A call of a
    collaborator is recorded with the handler as it stands at the call. *)
Inductive event : Type :=
| EvLog (lvl : level) (site : log_site)
| EvCreateTask (h : handler) (message : pyval)
| EvRunPrompt (h : handler) (prompt_name : string) (timeout : Z)
| EvSend (h : handler) (message : pyval)
| EvStepDone (h : handler) (step_name : string).

(** The collaborators, none of them in the sources at hand:
    - [create_task h m]: [asyncio.create_task(handler.send_message(m))], the
      detached delivery of [m]; [Some e] when scheduling raises;
    - [run_prompt h name timeout]: [PromptRunner.run_prompt];
    - [send_message h m]: the awaited [handler.send_message(m)];
    - [precheck_step_done h step]: [handler.state.precheck_step_done];
    - [to_dict]: [Message.to_dict].
    They answer from the handler they see and leave its attributes alone. *)
Record Env : Type := mkEnv {
  create_task : handler -> pyval -> option exn;
  run_prompt : handler -> string -> Z -> outcome pyval;
  send_message : handler -> pyval -> option exn;
  precheck_step_done : handler -> string -> option exn;
  to_dict : Message -> pyval
}.

Definition Co : Type -> Type := M handler event.

Definition log (lvl : level) (site : log_site) : Co unit := emit (EvLog lvl site).

Definition call (r : option exn) : Co unit :=
  match r with
  | None => ret tt
  | Some e => raise e
  end.

(** *** Address resolution (lines 53-89) *)

(** [schema_obj.get('address') or schema_obj.get('location') or
     schema_obj.get('streetAddress') or schema_obj.get('postalAddress')] *)
Definition address_candidate (schema_obj : pydict) : pyval :=
  py_or (py_or (py_or (dict_get schema_obj "address")
                      (dict_get schema_obj "location"))
               (dict_get schema_obj "streetAddress"))
        (dict_get schema_obj "postalAddress").

Definition address_fields : list string :=
  ["streetAddress"; "addressLocality"; "addressRegion"; "postalCode"].

(** The loop over the four fields of a structured address. *)
Fixpoint field_parts (fields : list string) (address : pydict)
                     (address_parts : list pyval) : list pyval :=
  match fields with
  | [] => address_parts
  | field :: rest =>
      field_parts rest address
        match lookup field address with
        | Some value =>
            if negb (is_dict value)
            then address_parts ++ [PStr (str value)]
            else address_parts
        | None => address_parts
        end
  end.

(** The country, handled separately. *)
Definition country_parts (address : pydict) (address_parts : list pyval)
  : list pyval :=
  match lookup "addressCountry" address with
  | Some country =>
      match country with
      | PDict c =>
          match lookup "name" c with
          | Some name => address_parts ++ [name]
          | None => address_parts
          end
      | PStr s =>
          if negb (startswith s "{")
          then address_parts ++ [country]
          else address_parts
      | _ => address_parts
      end
  | None => address_parts
  end.

Definition structured_address (address : pydict) : outcome pyval :=
  let address_parts := country_parts address (field_parts address_fields address []) in
  match address_parts with
  | [] => Ok PNone
  | _ => rbind (join ", " address_parts) (fun s => Ok (PStr s))
  end.

(** The value of [address] when line 91 tests it. *)
Definition resolve_address (schema_obj : pyval) : outcome pyval :=
  match schema_obj with
  | PDict d =>
      let address := address_candidate d in
      match address with
      | PStr s =>
          if str_in "{" s
          then match split s ", {" with
               | first :: _ => Ok (PStr first)
               | [] => Raise IndexError
               end
          else Ok address
      | PDict a => structured_address a
      | _ => Ok address
      end
  | _ => Ok PNone
  end.

(** *** The scan of the ranked results (lines 44-95) *)

(** What one iteration does with its result: [continue] for want of a
    [schema_object], nothing, or one more location. *)
Inductive scanned : Type :=
| Skipped
| Unaddressed
| Located (location : pyval).

Definition scan_result (result : pyval) : outcome scanned :=
  rbind (contains_str "schema_object" result) (fun present =>
  if negb present then Ok Skipped
  else
    rbind (getitem_str result "schema_object") (fun schema_obj =>
    rbind (resolve_address schema_obj) (fun address =>
    if truthy address
    then rbind (get_method result "name" (PStr "Unnamed")) (fun title =>
         Ok (Located (PDict [("title", title); ("address", PStr (str address))])))
    else Ok Unaddressed))).

Fixpoint scan_loop (results : list pyval) (results_with_addresses : list pyval)
  : Co (list pyval) :=
  match results with
  | [] => ret results_with_addresses
  | result :: rest =>
      s <- lift (scan_result result) ;;
      match s with
      | Skipped =>
          log DEBUG MissingSchemaObject ;;
          scan_loop rest results_with_addresses
      | Unaddressed => scan_loop rest results_with_addresses
      | Located location => scan_loop rest (results_with_addresses ++ [location])
      end
  end.

(** *** The quorum test (line 103) *)

(** [a / b] of two integers is Python's true division; on list lengths the
    quotient by 2 is exact, so the rationals model it. *)
Definition true_div (a b : Z) : Q := (inject_Z a / inject_Z b)%Q.

(** [results_with_addr_count >= total_results / 2 and results_with_addr_count > 0] *)
Definition quorum (results_with_addr_count total_results : nat) : bool :=
  Qle_bool (true_div (Z.of_nat total_results) 2)
           (inject_Z (Z.of_nat results_with_addr_count))
  && (0 <? results_with_addr_count)%nat.

Definition map_message (results_with_addresses : list pyval) : pyval :=
  PDict [("message_type", PStr "results_map");
         ("@type", PStr "LocationMap");
         ("locations", PList results_with_addresses)].

Section WithEnv.
Variable E : Env.

(** *** PostRanking.check_and_send_map_message *)
Definition check_and_send_map_message : Co unit :=
  try_except
    (h <- get ;;
     let results := match final_ranked_answers h with
                    | Some l => l
                    | None => []
                    end in
     match results with
     | [] => log DEBUG NoResultsToCheck
     | _ :: _ =>
         results_with_addresses <- scan_loop results [] ;;
         let total_results := List.length results in
         let results_with_addr_count := List.length results_with_addresses in
         log INFO (FoundWithAddresses results_with_addr_count total_results) ;;
         if quorum results_with_addr_count total_results
         then
           let map_message := map_message results_with_addresses in
           log INFO (SendingResultsMap results_with_addr_count) ;;
           log INFO (MapMessageContent map_message) ;;
           try_except
             (emit (EvCreateTask h map_message) ;;
              call (create_task E h map_message) ;;
              log INFO ResultsMapSent)
             (fun e => log ERROR (FailedToSendResultsMap e))
         else
           log DEBUG (NotSendingMap results_with_addr_count total_results)
     end)
    (fun e => log ERROR (ErrorCheckingMap e)).

(** *** SummarizeResults.do *)

Definition SUMMARIZE_RESULTS_PROMPT_NAME : string := "SummarizeResultsPrompt".

(** The message built at lines 145-151, from [handler.summary] and
    [handler.conversation_id]. *)
Definition summary_message (h : handler) : outcome Message :=
  match summary h with
  | Some text =>
      Ok (mkMessage ASSISTANT RESULT
                    (PList [PDict [("@type", PStr "Summary"); ("content", text)]])
                    (conversation_id h))
  | None => Raise AttributeError
  end.

Definition SummarizeResults_do : Co unit :=
  h <- get ;;
  answers <- match final_ranked_answers h with
             | Some l => ret l
             | None => raise AttributeError
             end ;;
  modify (set_final_ranked_answers (slice_to answers 3)) ;;
  h <- get ;;
  emit (EvRunPrompt h SUMMARIZE_RESULTS_PROMPT_NAME 20) ;;
  response <- lift (run_prompt E h SUMMARIZE_RESULTS_PROMPT_NAME 20) ;;
  if negb (truthy response)
  then log ERROR NoSummaryResponse
  else
    text <- lift (getitem_str response "summary") ;;
    modify (set_summary text) ;;
    h <- get ;;
    summary_msg <- lift (summary_message h) ;;
    modify (append_message summary_msg) ;;
    log INFO (SendingSummary (to_dict E summary_msg)) ;;
    h <- get ;;
    emit (EvSend h (to_dict E summary_msg)) ;;
    call (send_message E h (to_dict E summary_msg)) ;;
    emit (EvStepDone h "post_ranking") ;;
    call (precheck_step_done E h "post_ranking").

(** *** PostRanking.do *)
Definition PostRanking_do : Co unit :=
  h <- get ;;
  if negb (connection_alive h)
  then modify (set_query_done true)
  else
    check_and_send_map_message ;;
    h <- get ;;
    if String.eqb (generate_mode h) "none" then ret tt
    else if String.eqb (generate_mode h) "summarize" then SummarizeResults_do
    else ret tt.

End WithEnv.

(** *** Vocabulary of the statements *)

Definition is_create_task (ev : event) : bool :=
  match ev with EvCreateTask _ _ => true | _ => false end.
Definition is_run_prompt (ev : event) : bool :=
  match ev with EvRunPrompt _ _ _ => true | _ => false end.
Definition is_send (ev : event) : bool :=
  match ev with EvSend _ _ => true | _ => false end.
Definition is_step_done (ev : event) : bool :=
  match ev with EvStepDone _ _ => true | _ => false end.
Definition is_log (ev : event) : bool :=
  match ev with EvLog _ _ => true | _ => false end.

(** The map message was handed to the delivery collaborator. *)
Definition map_emitted (t : list event) : bool := existsb is_create_task t.

(** A result counts as address-bearing when its iteration appends a
    location. *)
Definition addressed (result : pyval) : bool :=
  match scan_result result with
  | Ok (Located _) => true
  | _ => false
  end.

Definition completes (result : pyval) : Prop :=
  exists s, scan_result result = Ok s.

Definition located (results : list pyval) : list pyval :=
  flat_map (fun r => match scan_result r with
                     | Ok (Located location) => [location]
                     | _ => []
                     end) results.

(** The claim of the specification on the candidate, in its own words: the
    first field that is present wins. *)
Fixpoint first_present (fields : list string) (schema_obj : pydict) : pyval :=
  match fields with
  | [] => PNone
  | field :: rest =>
      match lookup field schema_obj with
      | Some v => v
      | None => first_present rest schema_obj
      end
  end.

Definition candidate_fields : list string :=
  ["address"; "location"; "streetAddress"; "postalAddress"].

(** What the check does once the scan has gone through, with [locs] the
    locations found among [total] results (lines 98-120). *)
Definition map_events (E : Env) (h : handler) (locs : list pyval)
                      (total : nat) : list event :=
  let k := List.length locs in
  EvLog INFO (FoundWithAddresses k total) ::
  if quorum k total
  then [EvLog INFO (SendingResultsMap k);
        EvLog INFO (MapMessageContent (map_message locs));
        EvCreateTask h (map_message locs);
        match create_task E h (map_message locs) with
        | None => EvLog INFO ResultsMapSent
        | Some e => EvLog ERROR (FailedToSendResultsMap e)
        end]
  else [EvLog DEBUG (NotSendingMap k total)].

(** The handler once line 137 has cut the stored list [l]. *)
Definition truncated (l : list pyval) (h : handler) : handler :=
  set_final_ranked_answers (slice_to l 3) h.

(** The message lines 145-151 build from the summary [text]. *)
Definition summary_msg_of (text : pyval) (h : handler) : Message :=
  mkMessage ASSISTANT RESULT
            (PList [PDict [("@type", PStr "Summary"); ("content", text)]])
            (conversation_id h).

(** The handler once line 153 has appended that message. *)
Definition summarized (text : pyval) (l : list pyval) (h : handler) : handler :=
  append_message (summary_msg_of text h) (set_summary text (truncated l h)).

(** The quorum rule on a pass over [results]: the map message is emitted
    exactly when some result is address-bearing and the address-bearing
    results are at least half of all, by true division. *)
Definition emits_by_quorum (E : Env) (h : handler) (results : list pyval) : Prop :=
  let k := List.length (filter addressed results) in
  let N := List.length results in
  map_emitted (trace (check_and_send_map_message E h)) = true <->
  (0 < k)%nat /\ (inject_Z (Z.of_nat N) / 2 <= inject_Z (Z.of_nat k))%Q.

(** A result is merely excluded when the scan of a sequence that holds it
    ends as the scan of the sequence without it. *)
Definition merely_excluded (result : pyval) : Prop :=
  forall pre post acc h,
    Eff.result (scan_loop (pre ++ result :: post) acc h) =
    Eff.result (scan_loop (pre ++ post) acc h).

(** *** Sample data *)

(** Collaborators that always succeed; the summarizer answers
    [{"summary": "Two cafes downtown."}]. *)
Definition quiet_env : Env :=
  mkEnv (fun _ _ => None)
        (fun _ _ _ => Ok (PDict [("summary", PStr "Two cafes downtown.")]))
        (fun _ _ => None)
        (fun _ _ => None)
        (fun m => PDict [("message_type", PStr "result");
                         ("sender_type", PStr "assistant");
                         ("content", content m);
                         ("conversation_id", msg_conversation_id m)]).

(** As [quiet_env], with a summarizer that has nothing to say. *)
Definition mute_env : Env :=
  mkEnv (create_task quiet_env) (fun _ _ _ => Ok PNone)
        (send_message quiet_env) (precheck_step_done quiet_env)
        (to_dict quiet_env).

(** As [quiet_env], with a scheduler that refuses the detached task. *)
Definition unschedulable_env : Env :=
  mkEnv (fun _ _ => Some RuntimeError) (run_prompt quiet_env)
        (send_message quiet_env) (precheck_step_done quiet_env)
        (to_dict quiet_env).

Definition sample_handler (mode : string) (results : list pyval) : handler :=
  mkHandler true false mode (Some results) None [] (PStr "conv-1").

(** [{"name": "Cafe Uno", "schema_object": {"address": "1 Main St"}}] *)
Definition cafe : pyval :=
  PDict [("name", PStr "Cafe Uno");
         ("schema_object", PDict [("address", PStr "1 Main St")])].

(** [{"name": "FAQ"}]: no [schema_object]. *)
Definition page : pyval := PDict [("name", PStr "FAQ")].

(** [{"name": "Notes", "schema_object": "n/a"}]: a [schema_object] that is
    not a mapping. *)
Definition notes : pyval :=
  PDict [("name", PStr "Notes"); ("schema_object", PStr "n/a")].

(** [{"name": "Bar Due", "schema_object": {"address":
      {"streetAddress": "2 Main St", "addressCountry": {"name": null}}}}] *)
Definition bar : pyval :=
  PDict [("name", PStr "Bar Due");
         ("schema_object",
          PDict [("address",
                  PDict [("streetAddress", PStr "2 Main St");
                         ("addressCountry", PDict [("name", PNone)])])])].

End PostRanking.

(* ===================================================================== *)
(** ** retrieval_providers/google_custom_search_engine_client.py *)
(* ===================================================================== *)

Module GoogleCSE.
Import Py Eff.
Open Scope eff_scope.

(** The attributes [__init__] leaves on the client. *)
Record GoogleCustomSearchClient : Type := mkClient {
  endpoint_name : string;
  api_key : pyval;
  cx : pyval;
  api_endpoint : string
}.

(** What [httpx] hands back from [client.get]: [raise_for_status()] raises
    or not, [json()] decodes the body or raises. *)
Record response : Type := mkResponse {
  raise_for_status : option exn;
  json : outcome pyval
}.

Inductive log_site : Type :=
| SearchCall (query : string) (site : pyval) (num_results : Z)
| HttpErrorCalling (e : exn)
| UnexpectedErrorCalling (e : exn).

Inductive event : Type :=
| EvInfo (site : log_site)
| EvError (site : log_site)
| EvPrintItems (count : nat)
| EvPrintResult (link title : pyval)
| EvGet (url : string) (params : pydict) (timeout : Q).

(** The libraries behind the client:
    - [http_get url params timeout]: the request made inside
      [async with httpx.AsyncClient()], with any failure of the transport;
    - [netloc url]: [urlparse(url).netloc];
    - [dumps]: [json.dumps]. *)
Record Env : Type := mkEnv {
  http_get : string -> pydict -> Q -> outcome response;
  netloc : pyval -> outcome string;
  dumps : pyval -> string
}.

Definition Co : Type -> Type := M unit event.

Definition call (r : option exn) : Co unit :=
  match r with
  | None => ret tt
  | Some e => raise e
  end.

Definition is_http_error (e : exn) : bool :=
  match e with HTTPError => true | _ => false end.

(** [len(v)] *)
Definition len (v : pyval) : outcome nat :=
  match v with
  | PList l => Ok (List.length l)
  | PDict d => Ok (List.length d)
  | PStr s => Ok (String.length s)
  | _ => Raise TypeError
  end.

(** The elements [for it in v[:n]] goes through.  Slicing a dict is an
    error ([TypeError], [KeyError] from Python 3.12 on). *)
Definition sliced (v : pyval) (n : Z) : outcome (list pyval) :=
  match v with
  | PList l => Ok (slice_to l n)
  | PStr s =>
      Ok (map (fun c => PStr (String c EmptyString))
              (slice_to (list_ascii_of_string s) n))
  | _ => Raise TypeError
  end.

(** One entry of [CONFIG.retrieval_endpoints] ([core.config] is not part of
    the sources at hand), through the attributes [__init__] reads with
    [getattr(..., None)]: [PNone] (or [None]) stands for an attribute that is
    missing or null, which [getattr] with that default does not tell apart.
    The entry itself is an object, so it is truthy whenever it is there. *)
Record endpoint_config : Type := mkConfig {
  cfg_api_key : pyval;
  cfg_cx : pyval;
  cfg_custom_search_engine_id : pyval;
  cfg_index_name : pyval;
  cfg_api_endpoint : option string
}.

Definition DEFAULT_ENDPOINT_NAME : string := "google_custom_search".
Definition DEFAULT_API_ENDPOINT : string :=
  "https://customsearch.googleapis.com/customsearch/v1".

(** The record logged at line 41: it interpolates the key. *)
Inductive init_record : Type :=
| Initialized (endpoint_name : string) (api_key cx : pyval).

(** [GoogleCustomSearchClient.__init__]: the client and the record it logs,
    or the [ValueError] it raises. *)
Definition __init__ (retrieval_endpoints : list (string * endpoint_config))
    (endpoint_name : option string)
  : outcome (GoogleCustomSearchClient * init_record) :=
  let endpoint_name :=
    match endpoint_name with
    | Some name => if String.eqb name EmptyString then DEFAULT_ENDPOINT_NAME else name
    | None => DEFAULT_ENDPOINT_NAME
    end in
  match find (fun entry => String.eqb endpoint_name (fst entry)) retrieval_endpoints with
  | None => Raise ValueError
  | Some (_, endpoint_config) =>
      let api_key := cfg_api_key endpoint_config in
      let cx := py_or (py_or (cfg_cx endpoint_config)
                             (cfg_custom_search_engine_id endpoint_config))
                      (cfg_index_name endpoint_config) in
      let api_endpoint :=
        match cfg_api_endpoint endpoint_config with
        | Some url => if String.eqb url EmptyString then DEFAULT_API_ENDPOINT else url
        | None => DEFAULT_API_ENDPOINT
        end in
      if negb (truthy api_key) then Raise ValueError
      else if negb (truthy cx) then Raise ValueError
      else Ok (mkClient endpoint_name api_key cx api_endpoint,
               Initialized endpoint_name api_key cx)
  end.

(** The request parameters as they stand when the request is made
    (lines 59-75). *)
Definition request_params (self : GoogleCustomSearchClient) (query : string)
    (site : pyval) (num_results : Z) (kwargs : pydict) : pydict :=
  let params := [("key", api_key self);
                 ("cx", cx self);
                 ("q", PStr query);
                 ("num", PInt (Z.max 1 (Z.min num_results 10)))] in
  let params :=
    match site with
    | PStr s =>
        if truthy site && negb (String.eqb s "all")
        then dict_set params "q"
               (PStr (str (dict_get_default params "q" (PStr EmptyString))
                      ++ " site:" ++ s))
        else params
    | _ => params
    end in
  match dict_get_default kwargs "query_params" (PDict []) with
  | PDict query_params => dict_update params query_params
  | _ => params
  end.

Section WithEnv.
Variable E : Env.

Definition _extract_domain_from_url (url : pyval) : string :=
  match netloc E url with
  | Ok parsed_netloc =>
      let domain := if String.eqb parsed_netloc EmptyString
                    then "unknown" else parsed_netloc in
      if startswith domain "www."
      then String.substring 4 (String.length domain - 4) domain
      else domain
  | Raise _ => "unknown"
  end.

(** One iteration of the loop over the items (lines 93-108). *)
Definition item_row (it : pyval) : Co (list pyval) :=
  link <- lift (get_method it "link" (PStr EmptyString)) ;;
  title <- lift (get_method it "title" (PStr EmptyString)) ;;
  snippet <- lift (get_method it "snippet" (PStr EmptyString)) ;;
  let site_domain := _extract_domain_from_url link in
  displayLink <- lift (get_method it "displayLink" PNone) ;;
  let schema_obj := PDict [("@type", PStr "WebPage");
                           ("name", title);
                           ("description", snippet);
                           ("url", link);
                           ("displayLink", displayLink)] in
  let json_str := dumps E schema_obj in
  emit (EvPrintResult link title) ;;
  ret [link; PStr json_str; title; PStr site_domain].

Fixpoint item_rows (items : list pyval) (results : list (list pyval))
  : Co (list (list pyval)) :=
  match items with
  | [] => ret results
  | it :: rest =>
      row <- item_row it ;;
      item_rows rest (results ++ [row])
  end.

(** The body of the [try] (lines 78-81). *)
Definition fetch (self : GoogleCustomSearchClient) (params : pydict) : Co pyval :=
  emit (EvGet (api_endpoint self) params 30) ;;
  resp <- lift (http_get E (api_endpoint self) params 30) ;;
  call (raise_for_status resp) ;;
  lift (json resp).

(** The rows built from the decoded answer (lines 89-110). *)
Definition collect (data : pyval) (num_results : Z) : Co (list (list pyval)) :=
  items <- lift (get_method data "items" (PList [])) ;;
  count <- lift (len items) ;;
  emit (EvPrintItems count) ;;
  shown <- lift (sliced items num_results) ;;
  item_rows shown [].

(** [GoogleCustomSearchClient.search]; [None] from the [try] statement
    stands for the two [return []] of its handlers. *)
Definition search (self : GoogleCustomSearchClient) (query : string)
    (site : pyval) (num_results : Z) (kwargs : pydict)
  : Co (list (list pyval)) :=
  emit (EvInfo (SearchCall query site num_results)) ;;
  let params := request_params self query site num_results kwargs in
  fetched <- try_except
               (data <- fetch self params ;; ret (Some data))
               (fun e =>
                  if is_http_error e
                  then emit (EvError (HttpErrorCalling e)) ;; ret None
                  else emit (EvError (UnexpectedErrorCalling e)) ;; ret None) ;;
  match fetched with
  | None => ret []
  | Some data => collect data num_results
  end.

(** The parameters of [search] that its three positional arguments bind. *)
Definition search_parameters : list string :=
  ["query"; "site"; "num_results"].

(** The call [self.search(query, site, num_results, **kwargs)]: a keyword of
    [kwargs] that names a parameter already bound by position is a
    [TypeError] ("got multiple values for argument") raised by the call,
    before the body of [search] runs. *)
Definition call_search (self : GoogleCustomSearchClient) (query : string)
    (site : pyval) (num_results : Z) (kwargs : pydict)
  : Co (list (list pyval)) :=
  if existsb (fun name => has_key name kwargs) search_parameters
  then raise TypeError
  else search self query site num_results kwargs.

(** [GoogleCustomSearchClient.search_all_sites] (line 114). *)
Definition search_all_sites (self : GoogleCustomSearchClient) (query : string)
    (num_results : Z) (kwargs : pydict) : Co (list (list pyval)) :=
  call_search self query (PStr "all") num_results kwargs.

(** The parameters of [search] that a keyword of a caller's [**kwargs] would
    bind a second time: [search(url, "all", num_results=1, **kwargs)] is a
    [TypeError] at the call when [kwargs] holds one of them. *)
Definition bound_by_search_by_url : list string :=
  ["query"; "site"; "num_results"].

(** [GoogleCustomSearchClient.search_by_url] *)
Definition search_by_url (self : GoogleCustomSearchClient) (url : string)
    (kwargs : pydict) : Co (option (list pyval)) :=
  if existsb (fun name => has_key name kwargs) bound_by_search_by_url
  then raise TypeError
  else
    results <- search self url (PStr "all") 1 kwargs ;;
    match results with
    | [] => ret None
    | first :: _ =>
        match first with
        | [] => raise IndexError
        | PStr link :: _ =>
            if String.eqb (rstrip_char "/" link) (rstrip_char "/" url)
            then ret (Some first)
            else ret None
        | _ :: _ => raise AttributeError
        end
    end.

(** [GoogleCustomSearchClient.get_sites] *)
Definition get_sites (self : GoogleCustomSearchClient) (kwargs : pydict)
  : Co (option (list pyval)) :=
  ret None.

(** [GoogleCustomSearchClient.upload_documents] *)
Definition upload_documents (self : GoogleCustomSearchClient)
    (documents : list pydict) (kwargs : pydict) : Co Z :=
  raise (OtherError "NotImplementedError").

(** [GoogleCustomSearchClient.delete_documents_by_site] *)
Definition delete_documents_by_site (self : GoogleCustomSearchClient)
    (site : string) (kwargs : pydict) : Co Z :=
  raise (OtherError "NotImplementedError").

End WithEnv.

(** *** Vocabulary of the statements *)

Definition is_get (ev : event) : bool :=
  match ev with EvGet _ _ _ => true | _ => false end.

(** What the three steps of the [try] body come to: the request, the
    status check, the decoding. *)
Definition fetched_data (E : Env) (self : GoogleCustomSearchClient)
                        (params : pydict) : outcome pyval :=
  match http_get E (api_endpoint self) params 30 with
  | Raise e => Raise e
  | Ok resp =>
      match raise_for_status resp with
      | Some e => Raise e
      | None => json resp
      end
  end.

(** The record logged by the handler that catches [e]. *)
Definition failure_record (e : exn) : event :=
  if is_http_error e
  then EvError (HttpErrorCalling e)
  else EvError (UnexpectedErrorCalling e).

(** The name under which [__init__] looks the endpoint up (line 23). *)
Definition configured_name (endpoint_name : option string) : string :=
  match endpoint_name with
  | Some name => if String.eqb name EmptyString then DEFAULT_ENDPOINT_NAME else name
  | None => DEFAULT_ENDPOINT_NAME
  end.

(** A configuration with a key and an engine identifier, one with the
    identifier under [index_name] only, and one without a key. *)
Definition sample_endpoints : list (string * endpoint_config) :=
  [("google_custom_search",
    mkConfig (PStr "k-123") (PStr "cx-456") PNone PNone None);
   ("cse_by_index",
    mkConfig (PStr "k-123") PNone (PStr EmptyString) (PStr "cx-789")
             (Some "https://cse.example.org/v1"));
   ("cse_without_key",
    mkConfig PNone (PStr "cx-456") PNone PNone None)].

(** The test of line 68: the site filter is a non-empty string other than
    "all". *)
Definition site_restricts (site : pyval) : bool :=
  match site with
  | PStr s => negb (String.eqb s EmptyString) && negb (String.eqb s "all")
  | _ => false
  end.

(** The row lines 93-107 build from an item that is a mapping. *)
Definition row_of (E : Env) (it : pydict) : list pyval :=
  let link := dict_get_default it "link" (PStr EmptyString) in
  let title := dict_get_default it "title" (PStr EmptyString) in
  let snippet := dict_get_default it "snippet" (PStr EmptyString) in
  [link;
   PStr (dumps E (PDict [("@type", PStr "WebPage");
                         ("name", title);
                         ("description", snippet);
                         ("url", link);
                         ("displayLink", dict_get_default it "displayLink" PNone)]));
   title;
   PStr (_extract_domain_from_url E link)].

(** The requests of a trace, each with its timeout. *)
Definition requests (t : list event) : list (string * pydict * Q) :=
  flat_map (fun ev => match ev with
                      | EvGet url params timeout => [(url, params, timeout)]
                      | _ => []
                      end) t.

(** *** Sample data *)

Definition sample_client : GoogleCustomSearchClient :=
  mkClient "google_custom_search" (PStr "k-123") (PStr "cx-456")
           "https://customsearch.googleapis.com/customsearch/v1".

(** A transport that times out on every request. *)
Definition down_env : Env :=
  mkEnv (fun _ _ _ => Raise HTTPError) (fun _ => Ok "example.org") (fun _ => "{}").

(** A transport that answers 500 to every request. *)
Definition failing_env : Env :=
  mkEnv (fun _ _ _ => Ok (mkResponse (Some HTTPError) (Ok PNone)))
        (fun _ => Ok "example.org") (fun _ => "{}").

(** A transport whose answer does not decode. *)
Definition garbled_env : Env :=
  mkEnv (fun _ _ _ => Ok (mkResponse None (Raise ValueError)))
        (fun _ => Ok "example.org") (fun _ => "{}").

(** A transport that answers one item. *)
Definition up_env : Env :=
  mkEnv (fun _ _ _ =>
           Ok (mkResponse None
                 (Ok (PDict [("items",
                              PList [PDict [("link", PStr "https://www.example.org/a");
                                            ("title", PStr "A")]])]))))
        (fun _ => Ok "www.example.org") (fun _ => "{}").

End GoogleCSE.

(* ===================================================================== *)
(** ** Properties of core/post_ranking.py *)
(* ===================================================================== *)

Module PostRankingProps.
Import Py Eff PostRanking.

(** *** Facts about the builtins *)

Lemma append_empty_r s : (s ++ EmptyString)%string = s.
Proof. induction s as [|c s IH]; simpl; [reflexivity | now rewrite IH]. Qed.

Lemma append_assoc s1 s2 s3 :
  ((s1 ++ s2) ++ s3 = s1 ++ (s2 ++ s3))%string.
Proof. induction s1 as [|c s1 IH]; simpl; [reflexivity | now rewrite IH]. Qed.

Lemma string_of_list_ascii_app l1 l2 :
  string_of_list_ascii (l1 ++ l2) =
  (string_of_list_ascii l1 ++ string_of_list_ascii l2)%string.
Proof. induction l1 as [|c l1 IH]; simpl; [reflexivity | now rewrite IH]. Qed.

Lemma rev_string_cons c cur :
  rev_string (String c cur) = (rev_string cur ++ String c EmptyString)%string.
Proof. unfold rev_string. simpl. apply string_of_list_ascii_app. Qed.

Lemma prefix_split sep : forall s,
  String.prefix sep s = true -> exists tail, s = (sep ++ tail)%string.
Proof.
  induction sep as [|c sep IH]; intros s H.
  - exists s. reflexivity.
  - destruct s as [|c' s]; [discriminate|]. simpl in H.
    destruct (ascii_dec c c') as [->|]; [|discriminate].
    destruct (IH s H) as [tail ->]. exists tail. reflexivity.
Qed.

(** The first piece of a split is what stands before the first separator. *)
Lemma split_go_head sep s : forall cur,
  exists rest,
    split_go sep 0 cur s = (rev_string cur ++ before sep s)%string :: rest.
Proof.
  induction s as [|c s IH]; intros cur; cbn [split_go before].
  - exists []. now rewrite append_empty_r.
  - destruct (String.prefix sep (String c s)).
    + eexists. now rewrite append_empty_r.
    + destruct (IH (String c cur)) as [rest Hrest]. exists rest.
      rewrite Hrest, rev_string_cons, append_assoc. reflexivity.
Qed.

Lemma split_head s sep : exists rest, split s sep = before sep s :: rest.
Proof. apply (split_go_head sep s EmptyString). Qed.

Lemma before_spec sep s :
  (str_in sep s = true ->
   exists tail, s = (before sep s ++ sep ++ tail)%string) /\
  (str_in sep s = false -> before sep s = s).
Proof.
  induction s as [|c s [IH1 IH2]]; cbn [str_in before].
  - split.
    + rewrite orb_false_r. intros H. apply prefix_split in H. exact H.
    + reflexivity.
  - destruct (String.prefix sep (String c s)) eqn:Hp; cbn [orb].
    + split; [|discriminate]. intros _. apply prefix_split in Hp. exact Hp.
    + split.
      * intros H. destruct (IH1 H) as [tail Htail]. exists tail.
        simpl. now rewrite <- Htail.
      * intros H. now rewrite (IH2 H).
Qed.

Lemma quorum_spec count total :
  quorum count total = true <-> (0 < count)%nat /\ (total <= 2 * count)%nat.
Proof.
  unfold quorum, true_div.
  rewrite andb_true_iff, Qle_bool_iff, Nat.ltb_lt.
  unfold Qle, Qdiv, Qmult, Qinv, inject_Z; simpl.
  split; intros [H1 H2]; split; lia.
Qed.

(** The same test, in the rationals: at least half of the total, by true
    division. *)
Lemma quorum_true_division count total :
  quorum count total = true <->
  (0 < count)%nat /\
  (inject_Z (Z.of_nat total) / 2 <= inject_Z (Z.of_nat count))%Q.
Proof.
  unfold quorum, true_div.
  rewrite andb_true_iff, Qle_bool_iff, Nat.ltb_lt. tauto.
Qed.

(** *** Facts about the scan *)

Lemma located_length results :
  List.length (located results) = List.length (filter addressed results).
Proof.
  induction results as [|r rs IH]; simpl; [reflexivity|].
  unfold addressed.
  destruct (scan_result r) as [[| |loc]|e]; simpl; auto.
Qed.

Lemma scan_loop_cons r rs acc h :
  scan_loop (r :: rs) acc h =
  match scan_result r with
  | Ok Skipped =>
      match scan_loop rs acc h with
      | (h', t, o) => (h', EvLog DEBUG MissingSchemaObject :: t, o)
      end
  | Ok Unaddressed => scan_loop rs acc h
  | Ok (Located location) => scan_loop rs (acc ++ [location]) h
  | Raise e => (h, [], Raise e)
  end.
Proof.
  simpl. unfold bind at 1, lift.
  destruct (scan_result r) as [[| |loc]|e]; try reflexivity.
  - unfold bind, log, emit.
    destruct (scan_loop rs acc h) as [[h' t] o]; reflexivity.
  - destruct (scan_loop rs acc h) as [[h' t] o]; reflexivity.
  - destruct (scan_loop rs (acc ++ [loc]) h) as [[h' t] o]; reflexivity.
Qed.

Lemma scan_loop_final rs : forall acc h, final (scan_loop rs acc h) = h.
Proof.
  induction rs as [|r rs IH]; intros acc h; [reflexivity|].
  rewrite scan_loop_cons.
  destruct (scan_result r) as [[| |loc]|e]; auto.
  specialize (IH acc h).
  destruct (scan_loop rs acc h) as [[h' t] o]; exact IH.
Qed.

Lemma scan_loop_logs rs : forall acc h,
  forallb is_log (trace (scan_loop rs acc h)) = true.
Proof.
  induction rs as [|r rs IH]; intros acc h; [reflexivity|].
  rewrite scan_loop_cons.
  destruct (scan_result r) as [[| |loc]|e]; auto.
  specialize (IH acc h).
  destruct (scan_loop rs acc h) as [[h' t] o]; exact IH.
Qed.

Lemma scan_loop_ok rs : forall acc h,
  Forall completes rs ->
  result (scan_loop rs acc h) = Ok (acc ++ located rs).
Proof.
  induction rs as [|r rs IH]; intros acc h Hall.
  - simpl. now rewrite app_nil_r.
  - inversion Hall as [|? ? [s Hs] Hrest]; subst.
    rewrite scan_loop_cons. unfold located; simpl. rewrite Hs.
    fold (located rs).
    destruct s as [| |loc]; simpl.
    + specialize (IH acc h Hrest).
      destruct (scan_loop rs acc h) as [[h' t] o]; exact IH.
    + auto.
    + rewrite IH by assumption. now rewrite <- app_assoc.
Qed.

Lemma scan_loop_raise rs : forall acc h,
  ~ Forall completes rs ->
  exists e, result (scan_loop rs acc h) = Raise e.
Proof.
  induction rs as [|r rs IH]; intros acc h Hnot.
  - exfalso. apply Hnot. constructor.
  - rewrite scan_loop_cons.
    destruct (scan_result r) as [s|e] eqn:Hr; [|eexists; reflexivity].
    assert (Hrest : ~ Forall completes rs).
    { intro H. apply Hnot. constructor; [exists s; exact Hr | exact H]. }
    destruct s as [| |loc]; auto.
    destruct (IH acc h Hrest) as [e He].
    exists e. destruct (scan_loop rs acc h) as [[h' t] o]; exact He.
Qed.

(** *** The map check, case by case *)

Lemma check_no_results E h :
  final_ranked_answers h = None \/ final_ranked_answers h = Some [] ->
  check_and_send_map_message E h = (h, [EvLog DEBUG NoResultsToCheck], Ok tt).
Proof.
  intros [H|H]; unfold check_and_send_map_message, try_except, bind, get;
    rewrite H; reflexivity.
Qed.

Lemma check_scan E h results :
  final_ranked_answers h = Some results -> results <> [] ->
  check_and_send_map_message E h =
  match scan_loop results [] h with
  | (_, t, Ok locs) => (h, t ++ map_events E h locs (List.length results), Ok tt)
  | (_, t, Raise e) => (h, t ++ [EvLog ERROR (ErrorCheckingMap e)], Ok tt)
  end.
Proof.
  intros Hres Hne.
  destruct results as [|r rs]; [congruence|].
  unfold check_and_send_map_message, try_except at 1, bind at 1, get.
  rewrite Hres. cbv iota beta.
  unfold bind at 1.
  pose proof (scan_loop_final (r :: rs) [] h) as Hfin.
  destruct (scan_loop (r :: rs) [] h) as [[h' t] [locs|e]]; cbn in Hfin; subst h'.
  - unfold map_events.
    destruct (quorum (List.length locs) (List.length (r :: rs))) eqn:Hq.
    + unfold bind, log, emit, try_except, call.
      destruct (create_task E h (map_message locs)) as [e|]; reflexivity.
    + reflexivity.
  - reflexivity.
Qed.

Lemma map_emitted_app t1 t2 :
  map_emitted (t1 ++ t2) = map_emitted t1 || map_emitted t2.
Proof. apply existsb_app. Qed.

Lemma logs_emit_nothing t : forallb is_log t = true -> map_emitted t = false.
Proof.
  induction t as [|ev t IH]; [reflexivity|].
  simpl. rewrite andb_true_iff. intros [Hev Ht].
  destruct ev; try discriminate. simpl. auto.
Qed.

Lemma map_events_emitted E h locs total :
  map_emitted (map_events E h locs total) = quorum (List.length locs) total.
Proof.
  unfold map_events.
  destruct (quorum (List.length locs) total); [|reflexivity].
  destruct (create_task E h (map_message locs)); reflexivity.
Qed.

(** The check leaves the handler as it found it and returns normally. *)
Lemma check_completes E h :
  final (check_and_send_map_message E h) = h /\
  result (check_and_send_map_message E h) = Ok tt.
Proof.
  destruct (final_ranked_answers h) as [[|r rs]|] eqn:Hres.
  - rewrite check_no_results by auto. auto.
  - rewrite (check_scan E h (r :: rs)) by (auto; discriminate).
    destruct (scan_loop (r :: rs) [] h) as [[h' t] [locs|e]]; auto.
  - rewrite check_no_results by auto. auto.
Qed.

(** Its events are log records and at most the scheduling of the map. *)
Lemma check_trace_kinds E h :
  forallb (fun ev => is_log ev || is_create_task ev)
          (trace (check_and_send_map_message E h)) = true.
Proof.
  assert (Hlogs : forall t, forallb is_log t = true ->
                    forallb (fun ev => is_log ev || is_create_task ev) t = true).
  { induction t as [|ev t IH]; [reflexivity|]. simpl.
    rewrite !andb_true_iff. intros [H1 H2]. rewrite H1. auto. }
  destruct (final_ranked_answers h) as [[|r rs]|] eqn:Hres.
  - rewrite check_no_results by auto. reflexivity.
  - rewrite (check_scan E h (r :: rs)) by (auto; discriminate).
    pose proof (scan_loop_logs (r :: rs) [] h) as Hl.
    destruct (scan_loop (r :: rs) [] h) as [[h' t] [locs|e]]; cbn in Hl |- *;
      rewrite forallb_app, (Hlogs _ Hl); [|reflexivity].
    unfold map_events.
    destruct (quorum _ _); [|reflexivity].
    destruct (create_task E h (map_message locs)); reflexivity.
  - rewrite check_no_results by auto. reflexivity.
Qed.

(** *** The quorum *)

(** The rule of line 103 on the passes whose scan raises nothing: for every
    non-empty sequence of ranked results whose scan goes through, the map
    message is emitted if and only if the number of address-bearing results
    is greater than zero and at least half of the total, compared by true
    division; with 1 of 2 and 2 of 4 the test passes, with 1 of 3 it does
    not. *)
Theorem quorum_decides_map :
  (forall E h results,
     final_ranked_answers h = Some results ->
     results <> [] ->
     Forall completes results ->
     emits_by_quorum E h results)
  /\ quorum 1 2 = true /\ quorum 2 4 = true /\ quorum 1 3 = false.
Proof.
  split; [|repeat split; reflexivity].
  intros E h results Hres Hne Hall. unfold emits_by_quorum. cbv zeta.
  rewrite (check_scan E h results Hres Hne).
  pose proof (scan_loop_ok results [] h Hall) as Hok.
  pose proof (scan_loop_logs results [] h) as Hlogs.
  destruct (scan_loop results [] h) as [[h' t] o].
  cbn in Hok, Hlogs. subst o. cbn [app].
  unfold trace; cbn [fst snd].
  rewrite map_emitted_app, (logs_emit_nothing _ Hlogs), map_events_emitted.
  cbn [orb]. rewrite located_length.
  apply quorum_true_division.
Qed.

(** The three boundary cases, run: one address among two results and two
    among four give a map message, one among three does not. *)
Example quorum_boundaries :
  map_emitted (trace (check_and_send_map_message quiet_env
                        (sample_handler "none" [cafe; page]))) = true
  /\ map_emitted (trace (check_and_send_map_message quiet_env
                           (sample_handler "none" [cafe; page; cafe; notes]))) = true
  /\ map_emitted (trace (check_and_send_map_message quiet_env
                           (sample_handler "none" [cafe; page; notes]))) = false.
Proof. split; [|split]; reflexivity. Qed.

Lemma quorum_decides_map_witness :
  emits_by_quorum quiet_env (sample_handler "none" [cafe; page]) [cafe; page].
Proof.
  apply (proj1 quorum_decides_map).
  - reflexivity.
  - discriminate.
  - repeat constructor; eexists; reflexivity.
Defined.

(** The parts of a structured address all go through [str] but for the
    name of a country that is a mapping (line 81): the join raises only
    there. *)
Lemma join_strings sep parts :
  Forall (fun v => is_str v = true) parts -> exists s, join sep parts = Ok s.
Proof.
  induction 1 as [|v parts Hv _ [s IH]]; [eexists; reflexivity|].
  destruct v; try discriminate. cbn [join].
  destruct parts as [|v' parts']; [eexists; reflexivity|].
  rewrite IH. eexists. reflexivity.
Qed.

Lemma field_parts_strings fields : forall address acc,
  Forall (fun v => is_str v = true) acc ->
  Forall (fun v => is_str v = true) (field_parts fields address acc).
Proof.
  induction fields as [|f fs IH]; intros address acc Hacc; [exact Hacc|].
  cbn [field_parts]. apply IH.
  destruct (lookup f address) as [v|]; [|exact Hacc].
  destruct (negb (is_dict v)); [|exact Hacc].
  apply Forall_app. split; [exact Hacc | repeat constructor].
Qed.

Lemma join_raises_type_error sep parts : forall e,
  join sep parts = Raise e -> e = TypeError.
Proof.
  induction parts as [|p ps IH]; intros e; [discriminate|].
  destruct p; cbn [join]; try (now intros [= <-]).
  destruct ps as [|p' ps']; [discriminate|].
  destruct (join sep (p' :: ps')) as [t|e'] eqn:Hj; [discriminate|].
  cbn [rbind]. intros [= <-]. now apply IH.
Qed.

Lemma structured_address_cases address :
  (exists v, structured_address address = Ok v) \/
  (structured_address address = Raise TypeError /\
   exists country name,
     lookup "addressCountry" address = Some (PDict country) /\
     lookup "name" country = Some name /\
     is_str name = false).
Proof.
  assert (Hstr : forall parts,
            Forall (fun v => is_str v = true) parts ->
            exists v, match parts with
                      | [] => Ok PNone
                      | _ => rbind (join ", " parts) (fun s => Ok (PStr s))
                      end = Ok v).
  { intros parts Hall. destruct (join_strings ", " parts Hall) as [t Ht].
    destruct parts; [eexists; reflexivity|]. rewrite Ht. eexists. reflexivity. }
  pose proof (field_parts_strings address_fields address [] (Forall_nil _)) as Hf.
  unfold structured_address, country_parts.
  destruct (lookup "addressCountry" address) as [country|]; [|left; now apply Hstr].
  destruct country as [| | |cs| |c]; try (left; now apply Hstr).
  - left. apply Hstr. destruct (negb (startswith cs "{")); [|exact Hf].
    apply Forall_app. split; [exact Hf | repeat constructor].
  - destruct (lookup "name" c) as [name|] eqn:Hname; [|left; now apply Hstr].
    destruct (is_str name) eqn:Hname_str.
    + left. apply Hstr. apply Forall_app.
      split; [exact Hf | repeat constructor; exact Hname_str].
    + destruct (field_parts address_fields address [] ++ [name]) as [|p ps] eqn:Hp.
      { destruct (field_parts address_fields address []); discriminate. }
      destruct (join ", " (p :: ps)) as [t|e] eqn:Hj.
      * left. eexists. reflexivity.
      * right. rewrite (join_raises_type_error _ _ _ Hj). split; [reflexivity|].
        exists c, name. auto.
Qed.

Lemma resolve_address_cases schema_obj :
  (exists v, resolve_address schema_obj = Ok v) \/
  (resolve_address schema_obj = Raise TypeError /\
   exists sd address country name,
     schema_obj = PDict sd /\
     address_candidate sd = PDict address /\
     lookup "addressCountry" address = Some (PDict country) /\
     lookup "name" country = Some name /\
     is_str name = false).
Proof.
  unfold resolve_address.
  destruct schema_obj as [| | | | |sd]; try (left; eexists; reflexivity).
  destruct (address_candidate sd) as [| | |s| |a] eqn:Hc;
    try (left; eexists; reflexivity).
  - left. destruct (str_in "{" s); [|eexists; reflexivity].
    destruct (split_head s ", {") as [rest ->]. eexists. reflexivity.
  - destruct (structured_address_cases a) as [Hok|[Hraise (c & name & H)]].
    + left. exact Hok.
    + right. split; [exact Hraise|]. exists sd, a, c, name. auto.
Qed.

(** The scan of a result that is a mapping raises in one case only: its
    address candidate is a mapping whose [addressCountry] is a mapping with
    a [name] that is not a string; and what it raises is the [TypeError] of
    the join. *)
Lemma mapping_raises_only_by_country_name d e :
  scan_result (PDict d) = Raise e ->
  e = TypeError /\
  exists schema_obj address country name,
    lookup "schema_object" d = Some (PDict schema_obj) /\
    address_candidate schema_obj = PDict address /\
    lookup "addressCountry" address = Some (PDict country) /\
    lookup "name" country = Some name /\
    is_str name = false.
Proof.
  unfold scan_result. cbn [contains_str rbind]. unfold has_key, getitem_str.
  destruct (lookup "schema_object" d) as [schema|] eqn:Hs; [|discriminate].
  cbn [negb rbind].
  destruct (resolve_address_cases schema)
    as [[v Hv]|[Hraise (sd & a & c & name & -> & H)]].
  - rewrite Hv. cbn [rbind get_method]. destruct (truthy v); discriminate.
  - rewrite Hraise. cbn [rbind]. intros [= <-]. split; [reflexivity|].
    exists sd, a, c, name. auto.
Qed.

(** C1.  The pass over the two results [cafe], whose address is the string
    "1 Main St", and [bar], whose structured address has a country with a
    null name: one result of two bears an address, which is at least half by
    true division, so by the rule (and by the docstring of the method, "at
    least half of the results have addresses") the map message is due; but
    the null name reaches the join of line 86 without the [str] that line 75
    gives the other parts, the join raises, and the check logs the error
    and emits nothing. *)
Theorem null_country_name_loses_the_map :
  let results := [cafe; bar] in
  let h := sample_handler "none" results in
  addressed cafe = true
  /\ scan_result bar = Raise TypeError
  /\ quorum 1 (List.length results) = true
  /\ check_and_send_map_message quiet_env h =
       (h, [EvLog ERROR (ErrorCheckingMap TypeError)], Ok tt)
  /\ ~ emits_by_quorum quiet_env h results.
Proof.
  cbv zeta. split; [reflexivity|]. split; [reflexivity|].
  split; [reflexivity|]. split; [reflexivity|].
  unfold emits_by_quorum; cbv zeta. intros [_ H].
  assert (Hk : (0 < 1)%nat /\ (inject_Z (Z.of_nat 2) / 2 <= inject_Z (Z.of_nat 1))%Q)
    by (split; [lia | unfold Qle; simpl; lia]).
  specialize (H Hk). vm_compute in H. discriminate.
Qed.

(** *** Classification always completes *)

Lemma scan_loop_skip_one r :
  scan_result r = Ok Skipped \/ scan_result r = Ok Unaddressed ->
  forall pre post acc h,
    result (scan_loop (pre ++ r :: post) acc h) =
    result (scan_loop (pre ++ post) acc h).
Proof.
  intros Hr pre post. induction pre as [|p pre IH]; intros acc h.
  - cbn [app]. rewrite scan_loop_cons.
    destruct Hr as [Hr|Hr]; rewrite Hr; [|reflexivity].
    destruct (scan_loop post acc h) as [[h' t] o]; reflexivity.
  - cbn [app]. rewrite !scan_loop_cons.
    destruct (scan_result p) as [[| |loc]|e]; auto.
    specialize (IH acc h).
    destruct (scan_loop (pre ++ r :: post) acc h) as [[h1 t1] o1].
    destruct (scan_loop (pre ++ post) acc h) as [[h2 t2] o2]. exact IH.
Qed.

Lemma scan_result_no_schema d :
  lookup "schema_object" d = None -> scan_result (PDict d) = Ok Skipped.
Proof.
  intros H. unfold scan_result, contains_str, has_key. rewrite H. reflexivity.
Qed.

Lemma scan_result_schema_not_dict d v :
  lookup "schema_object" d = Some v -> is_dict v = false ->
  scan_result (PDict d) = Ok Unaddressed.
Proof.
  intros H Hv. unfold scan_result, contains_str, has_key, getitem_str.
  rewrite H. cbn [rbind negb].
  destruct v; try discriminate; reflexivity.
Qed.

(** C8, as amended.  For every handler and every sequence of results the
    map check returns normally and leaves the handler as it was; a result
    whose iteration raises nothing and appends no location is merely
    excluded from the candidates, as is in particular every mapping whose
    [schema_object] is missing or is not a mapping; an exception raised
    while scanning is caught and logged and no map message is emitted; and
    when scheduling the delivery of the map message raises, that is caught
    and logged too. *)
Theorem classification_completes :
  (forall E h,
     result (check_and_send_map_message E h) = Ok tt /\
     final (check_and_send_map_message E h) = h)
  /\ (forall result,
        completes result -> addressed result = false ->
        merely_excluded result)
  /\ (forall d,
        lookup "schema_object" d = None \/
        (exists v, lookup "schema_object" d = Some v /\ is_dict v = false) ->
        merely_excluded (PDict d))
  /\ (forall E h results e,
        final_ranked_answers h = Some results ->
        result (scan_loop results [] h) = Raise e ->
        In (EvLog ERROR (ErrorCheckingMap e))
           (trace (check_and_send_map_message E h)) /\
        map_emitted (trace (check_and_send_map_message E h)) = false)
  /\ (forall E h results e,
        final_ranked_answers h = Some results ->
        map_emitted (trace (check_and_send_map_message E h)) = true ->
        create_task E h (map_message (located results)) = Some e ->
        In (EvLog ERROR (FailedToSendResultsMap e))
           (trace (check_and_send_map_message E h))).
Proof.
  split; [|split; [|split; [|split]]].
  - intros E h. destruct (check_completes E h); auto.
  - intros r [s Hs] Hno pre post acc h. apply scan_loop_skip_one.
    unfold addressed in Hno. rewrite Hs in Hno |- *.
    destruct s; [left | right | discriminate]; reflexivity.
  - intros d [Hnone|[v [Hv Hd]]] pre post acc h; apply scan_loop_skip_one.
    + left. now apply scan_result_no_schema.
    + right. eapply scan_result_schema_not_dict; eauto.
  - intros E h results e Hres Hraise.
    assert (Hne : results <> []) by (intros ->; discriminate).
    rewrite (check_scan E h results Hres Hne).
    pose proof (scan_loop_logs results [] h) as Hlogs.
    destruct (scan_loop results [] h) as [[h' t] o].
    cbn in Hraise, Hlogs. subst o. unfold trace; cbn [fst snd]. split.
    + apply in_or_app. right. left. reflexivity.
    + rewrite map_emitted_app, (logs_emit_nothing _ Hlogs). reflexivity.
  - intros E h results e Hres Hemit Hfail.
    assert (Hne : results <> []).
    { intros ->. rewrite check_no_results in Hemit by auto. discriminate. }
    rewrite (check_scan E h _ Hres Hne) in Hemit |- *.
    destruct (Forall_dec completes) with (l := results) as [Hall|Hnot].
    { intros x. unfold completes. destruct (scan_result x) as [s|e'].
      - left. eauto.
      - right. intros [s Hs]. discriminate. }
    + pose proof (scan_loop_ok results [] h Hall) as Hok.
      pose proof (scan_loop_logs results [] h) as Hlogs.
      destruct (scan_loop results [] h) as [[h' t] o].
      cbn in Hok, Hlogs. subst o.
      unfold trace in *; cbn [fst snd] in *.
      rewrite map_emitted_app, (logs_emit_nothing _ Hlogs), map_events_emitted in Hemit.
      cbn [orb] in Hemit.
      apply in_or_app. right. unfold map_events. rewrite Hemit, Hfail.
      right. right. right. right. left. reflexivity.
    + destruct (scan_loop_raise results [] h Hnot) as [e' He'].
      pose proof (scan_loop_logs results [] h) as Hlogs.
      destruct (scan_loop results [] h) as [[h' t] o].
      cbn in He', Hlogs. subst o. unfold trace in Hemit; cbn [fst snd] in Hemit.
      rewrite map_emitted_app, (logs_emit_nothing _ Hlogs) in Hemit. discriminate.
Qed.

Lemma classification_completes_witness :
  merely_excluded (PDict [("name", PStr "Depot");
                          ("schema_object", PDict [("address", PInt 0)])])
  /\ merely_excluded page /\ merely_excluded notes
  /\ map_emitted
       (trace (check_and_send_map_message quiet_env
                 (sample_handler "none" [cafe; PNone]))) = false
  /\ In (EvLog ERROR (FailedToSendResultsMap RuntimeError))
        (trace (check_and_send_map_message unschedulable_env
                  (sample_handler "none" [cafe; page]))).
Proof.
  destruct classification_completes as (_ & Hnone & Hskip & Hcaught & Hsched).
  split; [|split; [|split; [|split]]].
  - apply Hnone; [eexists; reflexivity | reflexivity].
  - apply Hskip. left. reflexivity.
  - apply Hskip. right. exists (PStr "n/a"). split; reflexivity.
  - apply (Hcaught quiet_env _ [cafe; PNone] TypeError); reflexivity.
  - apply (Hsched unschedulable_env _ [cafe; page] RuntimeError); reflexivity.
Defined.

(** C8, as stated, fails for the exclusion on results that are not
    mappings: a null result, and a result left as text that holds the word
    schema_object, have no [schema_object] to read, and they are not merely
    excluded; the membership test or the subscript raises, the outer handler
    catches it, and the scan of [cafe] followed by either ends without the
    candidate of [cafe]. *)
Lemma malformed_not_merely_excluded :
  ~ merely_excluded PNone /\
  ~ merely_excluded (PStr "schema_object: none").
Proof.
  split; intros H;
    specialize (H [cafe] [] [] (sample_handler "none" []));
    vm_compute in H; discriminate.
Qed.

(** *** The address candidate *)

(** C2, as amended.  The candidate is looked up under address, location,
    streetAddress, postalAddress in that order and the first field whose
    value is truthy wins, whatever the later fields hold; a field that is
    missing or holds a falsy value is passed over, and when the first three
    are, the candidate is what postalAddress holds. *)
Theorem first_truthy_field_wins (schema_obj : pydict) :
  let address := dict_get schema_obj "address" in
  let location := dict_get schema_obj "location" in
  let streetAddress := dict_get schema_obj "streetAddress" in
  let postalAddress := dict_get schema_obj "postalAddress" in
  (truthy address = true -> address_candidate schema_obj = address)
  /\ (truthy address = false -> truthy location = true ->
      address_candidate schema_obj = location)
  /\ (truthy address = false -> truthy location = false ->
      truthy streetAddress = true ->
      address_candidate schema_obj = streetAddress)
  /\ (truthy address = false -> truthy location = false ->
      truthy streetAddress = false ->
      address_candidate schema_obj = postalAddress).
Proof.
  cbv zeta. unfold address_candidate, py_or.
  repeat split; intros;
    repeat (match goal with
            | H : truthy _ = _ |- _ => rewrite H
            end; cbv iota);
    reflexivity.
Qed.

Lemma first_truthy_field_wins_witness :
  address_candidate [("address", PStr "1 Main St"); ("location", PStr "Downtown")]
    = PStr "1 Main St"
  /\ address_candidate [("address", PNone); ("location", PStr "Downtown")]
    = PStr "Downtown"
  /\ address_candidate [("streetAddress", PStr "3 Oak Ave")] = PStr "3 Oak Ave"
  /\ address_candidate [("postalAddress", PStr "PO Box 7")] = PStr "PO Box 7".
Proof.
  split; [|split; [|split]].
  - apply (proj1 (first_truthy_field_wins
                    [("address", PStr "1 Main St"); ("location", PStr "Downtown")])).
    reflexivity.
  - apply (proj1 (proj2 (first_truthy_field_wins
                    [("address", PNone); ("location", PStr "Downtown")])));
      reflexivity.
  - apply (proj1 (proj2 (proj2 (first_truthy_field_wins
                    [("streetAddress", PStr "3 Oak Ave")]))));
      reflexivity.
  - apply (proj2 (proj2 (proj2 (first_truthy_field_wins
                    [("postalAddress", PStr "PO Box 7")]))));
      reflexivity.
Defined.

(** C2, as stated, fails: with an empty [address] and a [location], the
    first present field is [address], yet the candidate is the location. *)
Lemma first_present_does_not_win :
  let schema_obj := [("address", PStr EmptyString); ("location", PStr "12 Elm St")] in
  first_present candidate_fields schema_obj = PStr EmptyString
  /\ address_candidate schema_obj = PStr "12 Elm St"
  /\ address_candidate schema_obj <> first_present candidate_fields schema_obj.
Proof.
  cbv zeta. split; [reflexivity|]. split; [reflexivity|]. discriminate.
Qed.

(** *** Address resolution *)

(** C3.  Resolution of a structured address at an input whose street is a
    list: the claim has each of the four fields included only when its value
    is a scalar, and the comment at line 73 has dicts and complex objects
    skipped, yet the list is rendered with [str] and included. *)
Theorem list_valued_field_is_included :
  resolve_address
    (PDict [("address",
             PDict [("streetAddress", PList [PStr "1 Main St"; PStr "Apt 2"]);
                    ("addressLocality", PStr "Springfield")])])
  = Ok (PStr "['1 Main St', 'Apt 2'], Springfield").
Proof. reflexivity. Qed.

(** A country name that is not a string is appended as it is (the four
    fields go through [str], line 75; the name does not, line 81) and the
    join raises. *)
Lemma null_country_name_raises :
  resolve_address
    (PDict [("address",
             PDict [("streetAddress", PStr "2 Main St");
                    ("addressCountry", PDict [("name", PNone)])])])
  = Raise TypeError.
Proof. reflexivity. Qed.

(** The three resolutions the specification lists. *)
Lemma resolution_examples :
  resolve_address
    (PDict [("address",
             PDict [("streetAddress", PStr "1 Main St");
                    ("addressLocality", PStr "Springfield");
                    ("addressCountry", PDict [("name", PStr "USA")])])])
  = Ok (PStr "1 Main St, Springfield, USA")
  /\ resolve_address (PDict [("address", PDict [("addressCountry", PStr "USA")])])
     = Ok (PStr "USA")
  /\ resolve_address (PDict [("address", PStr "123 Elm, {nested:junk}")])
     = Ok (PStr "123 Elm").
Proof. split; [|split]; reflexivity. Qed.

(** The four fields contribute in their fixed order, each when it is present
    and its value is not a dict. *)
Lemma field_parts_spec fields : forall address acc,
  field_parts fields address acc =
  acc ++ flat_map (fun field =>
                     match lookup field address with
                     | Some value => if is_dict value then [] else [PStr (str value)]
                     | None => []
                     end) fields.
Proof.
  induction fields as [|f fs IH]; intros address acc; cbn [field_parts flat_map].
  - now rewrite app_nil_r.
  - rewrite IH. destruct (lookup f address) as [v|]; [|reflexivity].
    destruct (is_dict v); cbn [negb]; [reflexivity|].
    now rewrite <- app_assoc.
Qed.

(** A structured address from which nothing is extracted is absent. *)
Lemma structured_address_empty address :
  country_parts address (field_parts address_fields address []) = [] ->
  structured_address address = Ok PNone.
Proof. unfold structured_address. intros ->. reflexivity. Qed.

(** A string candidate with the marker is cut before its first ", {"; one
    with no ", {" in it is kept whole, marker or not. *)
Lemma resolve_string_candidate schema_obj s :
  address_candidate schema_obj = PStr s ->
  resolve_address (PDict schema_obj) =
  Ok (PStr (if str_in "{" s then before ", {" s else s)).
Proof.
  intros H. unfold resolve_address. rewrite H.
  destruct (str_in "{" s); [|reflexivity].
  destruct (split_head s ", {") as [rest ->]. reflexivity.
Qed.

Lemma resolve_string_prefix schema_obj s :
  address_candidate schema_obj = PStr s ->
  str_in ", {" s = true ->
  exists first tail,
    resolve_address (PDict schema_obj) = Ok (PStr first) /\
    s = (first ++ ", {" ++ tail)%string.
Proof.
  intros H Hsep.
  destruct (proj1 (before_spec ", {" s) Hsep) as [tail Htail].
  exists (before ", {" s), tail. split; [|exact Htail].
  rewrite (resolve_string_candidate _ _ H).
  assert (Hmark : str_in "{" s = true).
  { clear - Hsep. induction s as [|c s IH]; [discriminate|].
    cbn [str_in] in Hsep |- *. apply orb_true_iff in Hsep.
    apply orb_true_iff. destruct Hsep as [Hp|Hs]; [|right; auto].
    right. apply prefix_split in Hp. destruct Hp as [tail Ht].
    injection Ht as _ ->. destruct tail; reflexivity || (simpl; now rewrite orb_true_r). }
  now rewrite Hmark.
Qed.

(** *** SummarizeResults.do, case by case *)

Lemma summarize_start E h l :
  final_ranked_answers h = Some l ->
  SummarizeResults_do E h =
  let h1 := truncated l h in
  match run_prompt E h1 SUMMARIZE_RESULTS_PROMPT_NAME 20 with
  | Raise e => (h1, [EvRunPrompt h1 SUMMARIZE_RESULTS_PROMPT_NAME 20], Raise e)
  | Ok response =>
      if truthy response
      then
        match getitem_str response "summary" with
        | Raise e => (h1, [EvRunPrompt h1 SUMMARIZE_RESULTS_PROMPT_NAME 20], Raise e)
        | Ok text =>
            let h2 := summarized text l h in
            let d := to_dict E (summary_msg_of text h) in
            match send_message E h2 d with
            | Some e =>
                (h2, [EvRunPrompt h1 SUMMARIZE_RESULTS_PROMPT_NAME 20;
                      EvLog INFO (SendingSummary d); EvSend h2 d], Raise e)
            | None =>
                (h2, [EvRunPrompt h1 SUMMARIZE_RESULTS_PROMPT_NAME 20;
                      EvLog INFO (SendingSummary d); EvSend h2 d;
                      EvStepDone h2 "post_ranking"],
                 match precheck_step_done E h2 "post_ranking" with
                 | Some e => Raise e
                 | None => Ok tt
                 end)
            end
        end
      else (h1, [EvRunPrompt h1 SUMMARIZE_RESULTS_PROMPT_NAME 20;
                 EvLog ERROR NoSummaryResponse], Ok tt)
  end.
Proof.
  intros Hl. cbv zeta.
  unfold SummarizeResults_do, bind at 1, get. cbv iota beta.
  unfold bind at 1. rewrite Hl. unfold ret at 1. cbv iota beta.
  unfold bind at 1, modify at 1. cbv iota beta.
  unfold bind at 1. cbv iota beta.
  unfold bind at 1, emit at 1. cbv iota beta.
  unfold bind at 1, lift at 1.
  fold (truncated l h).
  destruct (run_prompt E (truncated l h) SUMMARIZE_RESULTS_PROMPT_NAME 20)
    as [response|e]; [|reflexivity].
  destruct (truthy response); cbn [negb]; [|reflexivity].
  unfold bind at 1, lift at 1.
  destruct (getitem_str response "summary") as [text|e]; [|reflexivity].
  unfold bind, modify, get, lift, log, emit, call, summary_message, summarized.
  cbn [summary set_summary conversation_id truncated set_final_ranked_answers].
  fold (summary_msg_of text h). fold (truncated l h).
  destruct (send_message E
              (append_message (summary_msg_of text h)
                 (set_summary text (truncated l h)))
              (to_dict E (summary_msg_of text h))) as [e|]; [reflexivity|].
  unfold ret, raise.
  destruct (precheck_step_done E
              (append_message (summary_msg_of text h)
                 (set_summary text (truncated l h))) "post_ranking");
    reflexivity.
Qed.

Lemma truncated_answers l h :
  final_ranked_answers (truncated l h) = Some (firstn 3 l).
Proof. reflexivity. Qed.

Lemma summarized_answers text l h :
  final_ranked_answers (summarized text l h) = Some (firstn 3 l).
Proof. reflexivity. Qed.

Lemma summarized_messages text l h :
  messages (summarized text l h) = messages h ++ [summary_msg_of text h].
Proof. reflexivity. Qed.

(** The prompt runs once, first, on the cut list, and the list stays cut. *)
Lemma summarize_shape E h l :
  final_ranked_answers h = Some l ->
  (exists post,
      trace (SummarizeResults_do E h) =
        EvRunPrompt (truncated l h) SUMMARIZE_RESULTS_PROMPT_NAME 20 :: post /\
      existsb is_run_prompt post = false) /\
  final_ranked_answers (final (SummarizeResults_do E h)) = Some (firstn 3 l).
Proof.
  intros Hl. rewrite (summarize_start E h l Hl). cbv zeta.
  destruct (run_prompt E (truncated l h) SUMMARIZE_RESULTS_PROMPT_NAME 20)
    as [response|e].
  - destruct (truthy response).
    + destruct (getitem_str response "summary") as [text|e].
      * destruct (send_message E (summarized text l h)
                    (to_dict E (summary_msg_of text h))) as [e|];
          (split; [eexists; split; reflexivity | reflexivity]).
      * split; [eexists; split; reflexivity | reflexivity].
    + split; [eexists; split; reflexivity | reflexivity].
  - split; [eexists; split; reflexivity | reflexivity].
Qed.

(** *** PostRanking.do on a live connection *)

Lemma router_alive E h :
  connection_alive h = true ->
  PostRanking_do E h =
  if String.eqb (generate_mode h) "none"
  then (h, trace (check_and_send_map_message E h), Ok tt)
  else if String.eqb (generate_mode h) "summarize"
       then match SummarizeResults_do E h with
            | (h', t, r) => (h', trace (check_and_send_map_message E h) ++ t, r)
            end
       else (h, trace (check_and_send_map_message E h), Ok tt).
Proof.
  intros Halive.
  unfold PostRanking_do, bind at 1, get. cbv iota beta. rewrite Halive.
  cbn [negb]. unfold bind at 1.
  destruct (check_completes E h) as [Hfin Hres].
  destruct (check_and_send_map_message E h) as [[h' t] o].
  cbn in Hfin, Hres. subst h' o. unfold trace; cbn [fst snd].
  unfold bind at 1, get. cbv iota beta.
  destruct (String.eqb (generate_mode h) "none").
  - unfold ret. now rewrite !app_nil_r.
  - destruct (String.eqb (generate_mode h) "summarize").
    + destruct (SummarizeResults_do E h) as [[h2 t2] r2]. reflexivity.
    + unfold ret. now rewrite !app_nil_r.
Qed.

Lemma check_never_prompts E h :
  existsb is_run_prompt (trace (check_and_send_map_message E h)) = false /\
  existsb is_step_done (trace (check_and_send_map_message E h)) = false /\
  existsb is_send (trace (check_and_send_map_message E h)) = false.
Proof.
  pose proof (check_trace_kinds E h) as Hk.
  induction (trace (check_and_send_map_message E h)) as [|ev t IH].
  - auto.
  - simpl in Hk. apply andb_true_iff in Hk. destruct Hk as [Hev Ht].
    destruct (IH Ht) as (H1 & H2 & H3).
    destruct ev; try discriminate; simpl; auto.
Qed.

(** C4.  On a live connection and a mode other than "summarize" (so for
    "none"), the router runs the classification and returns: the
    summarization capability and the completion signal are not invoked.
    [SummarizeResults.do] replaces the stored ranked list by its first three
    elements before it invokes the summarization capability, which sees the
    cut list, and the list stays cut; so does the router in mode
    "summarize". *)
Theorem mode_dispatch :
  (forall E h,
     connection_alive h = true ->
     generate_mode h <> "summarize" ->
     PostRanking_do E h = (h, trace (check_and_send_map_message E h), Ok tt) /\
     existsb is_run_prompt (trace (PostRanking_do E h)) = false /\
     existsb is_step_done (trace (PostRanking_do E h)) = false)
  /\ (forall E h l,
        final_ranked_answers h = Some l ->
        (exists post,
            trace (SummarizeResults_do E h) =
              EvRunPrompt (truncated l h) SUMMARIZE_RESULTS_PROMPT_NAME 20 :: post /\
            existsb is_run_prompt post = false) /\
        final_ranked_answers (truncated l h) = Some (firstn 3 l) /\
        final_ranked_answers (final (SummarizeResults_do E h)) = Some (firstn 3 l))
  /\ (forall E h l,
        connection_alive h = true ->
        generate_mode h = "summarize" ->
        final_ranked_answers h = Some l ->
        (exists pre post,
            trace (PostRanking_do E h) =
              pre ++ EvRunPrompt (truncated l h) SUMMARIZE_RESULTS_PROMPT_NAME 20 :: post /\
            existsb is_run_prompt pre = false /\
            existsb is_run_prompt post = false) /\
        final_ranked_answers (final (PostRanking_do E h)) = Some (firstn 3 l)).
Proof.
  split; [|split].
  - intros E h Halive Hmode.
    assert (Heq : PostRanking_do E h =
                  (h, trace (check_and_send_map_message E h), Ok tt)).
    { rewrite (router_alive E h Halive).
      apply String.eqb_neq in Hmode. rewrite Hmode.
      destruct (String.eqb (generate_mode h) "none"); reflexivity. }
    rewrite Heq. unfold trace at 2 4; cbn [fst snd].
    destruct (check_never_prompts E h) as (H1 & H2 & _). auto.
  - intros E h l Hl.
    destruct (summarize_shape E h l Hl) as [Hpost Hfin].
    split; [exact Hpost|]. split; [reflexivity | exact Hfin].
  - intros E h l Halive Hmode Hl.
    rewrite (router_alive E h Halive), Hmode. cbn [String.eqb Ascii.eqb Bool.eqb].
    destruct (summarize_shape E h l Hl) as [[post [Htr Hpost]] Hfin].
    destruct (SummarizeResults_do E h) as [[h' t] r].
    unfold trace in Htr; unfold final in Hfin; cbn [fst snd] in Htr, Hfin.
    unfold trace at 1, final; cbn [fst snd]. split; [|exact Hfin].
    exists (trace (check_and_send_map_message E h)), post.
    rewrite Htr. destruct (check_never_prompts E h) as (H1 & _). auto.
Qed.

Lemma mode_dispatch_witness :
  PostRanking_do quiet_env (sample_handler "none" [cafe; page]) =
    (sample_handler "none" [cafe; page],
     trace (check_and_send_map_message quiet_env (sample_handler "none" [cafe; page])),
     Ok tt)
  /\ final_ranked_answers
       (final (SummarizeResults_do quiet_env
                 (sample_handler "summarize" [cafe; page; page; notes; cafe])))
     = Some [cafe; page; page]
  /\ final_ranked_answers
       (final (PostRanking_do quiet_env
                 (sample_handler "summarize" [cafe; page; page; notes; cafe])))
     = Some [cafe; page; page].
Proof.
  destruct mode_dispatch as (Hnone & Hsum & Hrouter).
  split; [|split].
  - apply Hnone; [reflexivity | discriminate].
  - apply (Hsum quiet_env _ [cafe; page; page; notes; cafe]). reflexivity.
  - apply (Hrouter quiet_env _ [cafe; page; page; notes; cafe]); reflexivity.
Defined.

(** *** The summarize path *)

(** C5.  When the summarizer answers a truthy response with a summary and
    the delivery succeeds, [SummarizeResults.do] causes, in this order: the
    prompt, the log record, the send of the summary message, made on a
    handler whose transcript already ends with that message, and one
    completion signal with the step name "post_ranking".  When the delivery
    raises instead, the completion signal is not invoked. *)
Theorem summary_effects_in_order E h l response text :
  final_ranked_answers h = Some l ->
  run_prompt E (truncated l h) SUMMARIZE_RESULTS_PROMPT_NAME 20 = Ok response ->
  truthy response = true ->
  getitem_str response "summary" = Ok text ->
  let m := summary_msg_of text h in
  let h2 := summarized text l h in
  let d := to_dict E m in
  messages h2 = messages h ++ [m]
  /\ (send_message E h2 d = None ->
      trace (SummarizeResults_do E h) =
        [EvRunPrompt (truncated l h) SUMMARIZE_RESULTS_PROMPT_NAME 20;
         EvLog INFO (SendingSummary d);
         EvSend h2 d;
         EvStepDone h2 "post_ranking"]
      /\ final (SummarizeResults_do E h) = h2)
  /\ (forall e, send_message E h2 d = Some e ->
      existsb is_step_done (trace (SummarizeResults_do E h)) = false
      /\ result (SummarizeResults_do E h) = Raise e).
Proof.
  intros Hl Hrun Htruthy Hsummary. cbv zeta.
  split; [reflexivity|].
  rewrite (summarize_start E h l Hl). cbv zeta.
  rewrite Hrun, Htruthy, Hsummary.
  split.
  - intros Hsend. rewrite Hsend. split; reflexivity.
  - intros e Hsend. rewrite Hsend. split; reflexivity.
Qed.

Lemma summary_effects_in_order_witness :
  let h := sample_handler "summarize" [cafe; page] in
  let text := PStr "Two cafes downtown." in
  let h2 := summarized text [cafe; page] h in
  let d := to_dict quiet_env (summary_msg_of text h) in
  trace (SummarizeResults_do quiet_env h) =
    [EvRunPrompt (truncated [cafe; page] h) SUMMARIZE_RESULTS_PROMPT_NAME 20;
     EvLog INFO (SendingSummary d);
     EvSend h2 d;
     EvStepDone h2 "post_ranking"]
  /\ final (SummarizeResults_do quiet_env h) = h2.
Proof.
  cbv zeta.
  apply (proj1 (proj2 (summary_effects_in_order quiet_env
                         (sample_handler "summarize" [cafe; page]) [cafe; page]
                         (PDict [("summary", PStr "Two cafes downtown.")])
                         (PStr "Two cafes downtown.")
                         eq_refl eq_refl eq_refl eq_refl))).
  reflexivity.
Defined.

(** C6.  When the summarizer answers a falsy response (null or empty),
    [SummarizeResults.do] logs the error and returns: the transcript is as it
    was, nothing is sent and the completion signal is not invoked. *)
Theorem null_response_stops E h l response :
  final_ranked_answers h = Some l ->
  run_prompt E (truncated l h) SUMMARIZE_RESULTS_PROMPT_NAME 20 = Ok response ->
  truthy response = false ->
  SummarizeResults_do E h =
    (truncated l h,
     [EvRunPrompt (truncated l h) SUMMARIZE_RESULTS_PROMPT_NAME 20;
      EvLog ERROR NoSummaryResponse],
     Ok tt)
  /\ messages (final (SummarizeResults_do E h)) = messages h
  /\ existsb is_send (trace (SummarizeResults_do E h)) = false
  /\ existsb is_step_done (trace (SummarizeResults_do E h)) = false.
Proof.
  intros Hl Hrun Hfalsy.
  rewrite (summarize_start E h l Hl). cbv zeta.
  rewrite Hrun, Hfalsy. repeat split.
Qed.

Lemma null_response_stops_witness :
  let h := sample_handler "summarize" [cafe; page] in
  messages (final (SummarizeResults_do mute_env h)) = messages h
  /\ existsb is_send (trace (SummarizeResults_do mute_env h)) = false
  /\ existsb is_step_done (trace (SummarizeResults_do mute_env h)) = false.
Proof.
  cbv zeta.
  apply (proj2 (null_response_stops mute_env
                  (sample_handler "summarize" [cafe; page]) [cafe; page] PNone
                  eq_refl eq_refl eq_refl)).
Defined.

(** The same path seen from the router: the classification first, then the
    four events of the summary. *)
Lemma router_summary_effects E h l response text :
  connection_alive h = true ->
  generate_mode h = "summarize" ->
  final_ranked_answers h = Some l ->
  run_prompt E (truncated l h) SUMMARIZE_RESULTS_PROMPT_NAME 20 = Ok response ->
  truthy response = true ->
  getitem_str response "summary" = Ok text ->
  send_message E (summarized text l h) (to_dict E (summary_msg_of text h)) = None ->
  trace (PostRanking_do E h) =
    trace (check_and_send_map_message E h) ++
    [EvRunPrompt (truncated l h) SUMMARIZE_RESULTS_PROMPT_NAME 20;
     EvLog INFO (SendingSummary (to_dict E (summary_msg_of text h)));
     EvSend (summarized text l h) (to_dict E (summary_msg_of text h));
     EvStepDone (summarized text l h) "post_ranking"].
Proof.
  intros Halive Hmode Hl Hrun Htruthy Hsummary Hsend.
  rewrite (router_alive E h Halive), Hmode. cbn [String.eqb Ascii.eqb Bool.eqb].
  rewrite (summarize_start E h l Hl). cbv zeta.
  rewrite Hrun, Htruthy, Hsummary, Hsend. reflexivity.
Qed.

(** *** The liveness test *)

(** C7.  When the connection is not alive at entry, the router sets
    [query_done] and returns: it causes no event (no classification, no
    prompt, no delivery, no log record) and every other attribute of the
    handler is as it was. *)
Theorem dead_connection_aborts E h :
  connection_alive h = false ->
  PostRanking_do E h = (set_query_done true h, [], Ok tt)
  /\ query_done (final (PostRanking_do E h)) = true
  /\ connection_alive (final (PostRanking_do E h)) = connection_alive h
  /\ generate_mode (final (PostRanking_do E h)) = generate_mode h
  /\ final_ranked_answers (final (PostRanking_do E h)) = final_ranked_answers h
  /\ summary (final (PostRanking_do E h)) = summary h
  /\ messages (final (PostRanking_do E h)) = messages h
  /\ conversation_id (final (PostRanking_do E h)) = conversation_id h.
Proof.
  intros Hdead.
  assert (Heq : PostRanking_do E h = (set_query_done true h, [], Ok tt)).
  { unfold PostRanking_do, bind, get, modify. rewrite Hdead. reflexivity. }
  rewrite Heq. repeat split.
Qed.

Lemma dead_connection_aborts_witness :
  let h := mkHandler false false "summarize" (Some [cafe; page]) None []
                     (PStr "conv-1") in
  PostRanking_do quiet_env h = (set_query_done true h, [], Ok tt).
Proof.
  cbv zeta.
  apply (proj1 (dead_connection_aborts quiet_env
                  (mkHandler false false "summarize" (Some [cafe; page]) None []
                             (PStr "conv-1")) eq_refl)).
Defined.

End PostRankingProps.

(* ===================================================================== *)
(** ** Properties of the Google CSE client *)
(* ===================================================================== *)

Module GoogleCSEProps.
Import Py Eff GoogleCSE.

Lemma fetch_run E self params :
  fetch E self params tt =
  (tt, [EvGet (api_endpoint self) params 30], fetched_data E self params).
Proof.
  unfold fetch, fetched_data, bind, emit, lift, call.
  destruct (http_get E (api_endpoint self) params 30) as [resp|e]; [|reflexivity].
  destruct (raise_for_status resp) as [e|]; [reflexivity|].
  unfold ret. destruct (json resp); reflexivity.
Qed.

Lemma item_row_requests E it : requests (trace (item_row E it tt)) = [].
Proof.
  unfold item_row, bind, lift, emit, ret.
  destruct (get_method it "link" (PStr EmptyString)); [|reflexivity].
  destruct (get_method it "title" (PStr EmptyString)); [|reflexivity].
  destruct (get_method it "snippet" (PStr EmptyString)); [|reflexivity].
  destruct (get_method it "displayLink" PNone); reflexivity.
Qed.

Lemma requests_app t1 t2 : requests (t1 ++ t2) = requests t1 ++ requests t2.
Proof. apply flat_map_app. Qed.

Lemma item_rows_requests E items : forall acc,
  requests (trace (item_rows E items acc tt)) = [].
Proof.
  induction items as [|it items IH]; intros acc; [reflexivity|].
  cbn [item_rows]. unfold bind.
  pose proof (item_row_requests E it) as Hrow.
  destruct (item_row E it tt) as [[[] t1] [row|e]]; [|exact Hrow].
  specialize (IH (acc ++ [row])).
  destruct (item_rows E items (acc ++ [row]) tt) as [[[] t2] r2].
  unfold trace in *; cbn [fst snd] in *.
  now rewrite requests_app, Hrow, IH.
Qed.

Lemma collect_requests E data num_results :
  requests (trace (collect E data num_results tt)) = [].
Proof.
  unfold collect, bind at 1, lift at 1.
  destruct (get_method data "items" (PList [])) as [items|e]; [|reflexivity].
  unfold bind at 1, lift at 1.
  destruct (len items) as [count|e]; [|reflexivity].
  unfold bind at 1, emit at 1. unfold bind at 1, lift at 1.
  destruct (sliced items num_results) as [shown|e]; [|reflexivity].
  pose proof (item_rows_requests E shown []) as Hrows.
  destruct (item_rows E shown [] tt) as [[[] t] r]. exact Hrows.
Qed.

(** [search], case by case on what the request comes to. *)
Lemma search_run E self query site num_results kwargs :
  let params := request_params self query site num_results kwargs in
  search E self query site num_results kwargs tt =
  match fetched_data E self params with
  | Raise e =>
      (tt, [EvInfo (SearchCall query site num_results);
            EvGet (api_endpoint self) params 30;
            failure_record e], Ok [])
  | Ok data =>
      (tt, [EvInfo (SearchCall query site num_results);
            EvGet (api_endpoint self) params 30]
           ++ trace (collect E data num_results tt),
       result (collect E data num_results tt))
  end.
Proof.
  cbv zeta. unfold search.
  unfold bind at 1, emit at 1. cbv iota beta.
  unfold bind at 1, try_except, bind at 1.
  rewrite fetch_run.
  destruct (fetched_data E self _) as [data|e].
  - unfold ret at 1. cbv iota beta.
    destruct (collect E data num_results tt) as [[[] t] r]. reflexivity.
  - unfold failure_record. destruct (is_http_error e); reflexivity.
Qed.

(** C9.  For every query (and site filter, result count and keyword
    arguments) [search] makes one request, with a timeout of 30; and when
    the request raises, or the status check raises, or the decoding of the
    answer raises, be it an [httpx.HTTPError] or any other exception,
    [search] returns the empty list instead of raising. *)
Theorem search_fails_soft E self query site num_results kwargs :
  let params := request_params self query site num_results kwargs in
  let run := search E self query site num_results kwargs tt in
  requests (trace run) = [(api_endpoint self, params, 30%Q)]
  /\ (forall e,
        http_get E (api_endpoint self) params 30 = Raise e ->
        result run = Ok [])
  /\ (forall resp e,
        http_get E (api_endpoint self) params 30 = Ok resp ->
        raise_for_status resp = Some e ->
        result run = Ok [])
  /\ (forall resp e,
        http_get E (api_endpoint self) params 30 = Ok resp ->
        raise_for_status resp = None ->
        json resp = Raise e ->
        result run = Ok []).
Proof.
  cbv zeta. rewrite search_run. cbv zeta. unfold fetched_data.
  split; [|split; [|split]].
  - destruct (http_get E _ _ _) as [resp|e].
    + destruct (raise_for_status resp) as [e|].
      * unfold failure_record. destruct (is_http_error e); reflexivity.
      * destruct (json resp) as [data|e].
        -- unfold trace at 1; cbn [fst snd].
           rewrite requests_app, collect_requests. reflexivity.
        -- unfold failure_record. destruct (is_http_error e); reflexivity.
    + unfold failure_record. destruct (is_http_error e); reflexivity.
  - intros e H. rewrite H. reflexivity.
  - intros resp e H1 H2. rewrite H1, H2. reflexivity.
  - intros resp e H1 H2 H3. rewrite H1, H2, H3. reflexivity.
Qed.

Lemma search_fails_soft_witness :
  result (search down_env sample_client "pizza" (PStr "all") 5 [] tt) = Ok []
  /\ result (search failing_env sample_client "pizza" (PStr "example.org") 5 [] tt)
     = Ok []
  /\ result (search garbled_env sample_client "pizza" PNone 5 [] tt) = Ok [].
Proof.
  split; [|split].
  - apply (proj1 (proj2 (search_fails_soft down_env sample_client "pizza"
                           (PStr "all") 5 [])) HTTPError).
    reflexivity.
  - apply (proj1 (proj2 (proj2 (search_fails_soft failing_env sample_client
                                  "pizza" (PStr "example.org") 5 [])))
             (mkResponse (Some HTTPError) (Ok PNone)) HTTPError);
      reflexivity.
  - apply (proj2 (proj2 (proj2 (search_fails_soft garbled_env sample_client
                                  "pizza" PNone 5 [])))
             (mkResponse None (Raise ValueError)) ValueError);
      reflexivity.
Defined.

(** C10.  For every query, result count and keyword arguments,
    [search_all_sites] is [search] invoked with the site filter "all" and
    the same query, result count and keyword arguments: the two are the same
    coroutine.  When no keyword names a parameter of [search] it runs the
    body of [search] with the site "all", with the same events and the same
    returned value or exception; when one does (as site), both raise the
    [TypeError] of the call and make no request. *)
Theorem search_all_sites_is_search E self query num_results kwargs :
  search_all_sites E self query num_results kwargs =
    call_search E self query (PStr "all") num_results kwargs
  /\ (existsb (fun name => has_key name kwargs) search_parameters = false ->
      search_all_sites E self query num_results kwargs tt =
        search E self query (PStr "all") num_results kwargs tt)
  /\ (existsb (fun name => has_key name kwargs) search_parameters = true ->
      search_all_sites E self query num_results kwargs tt = (tt, [], Raise TypeError) /\
      call_search E self query (PStr "all") num_results kwargs tt
        = (tt, [], Raise TypeError)).
Proof.
  split; [reflexivity|].
  unfold search_all_sites, call_search. split.
  - intros Hfree. now rewrite Hfree.
  - intros Hbound. rewrite Hbound. split; reflexivity.
Qed.

Lemma search_all_sites_is_search_witness :
  search_all_sites up_env sample_client "pizza" 5 [("hl", PStr "en")] tt =
    search up_env sample_client "pizza" (PStr "all") 5 [("hl", PStr "en")] tt
  /\ search_all_sites up_env sample_client "pizza" 5
                      [("site", PStr "example.org")] tt
     = (tt, [], Raise TypeError).
Proof.
  split.
  - apply (proj1 (proj2 (search_all_sites_is_search up_env sample_client
                           "pizza" 5 [("hl", PStr "en")]))).
    reflexivity.
  - apply (proj2 (proj2 (search_all_sites_is_search up_env sample_client
                           "pizza" 5 [("site", PStr "example.org")]))).
    reflexivity.
Defined.

(** With the filter "all" the query is sent as it is, as with no filter. *)
Lemma all_sites_query_unrestricted self query num_results kwargs :
  request_params self query (PStr "all") num_results kwargs =
  request_params self query PNone num_results kwargs.
Proof. reflexivity. Qed.

(** With a site filter the query is restricted to the site. *)
Lemma site_query_restricted self query site num_results :
  site <> EmptyString -> site <> "all" ->
  lookup "q" (request_params self query (PStr site) num_results [])
  = Some (PStr (query ++ " site:" ++ site)).
Proof.
  intros Hne Hall. unfold request_params.
  apply String.eqb_neq in Hne, Hall.
  cbn [truthy]. rewrite Hne, Hall. reflexivity.
Qed.

End GoogleCSEProps.

(* ===================================================================== *)
(** ** Further properties of core/post_ranking.py *)
(* ===================================================================== *)

Module PostRankingMore.
Import Py Eff PostRanking PostRankingProps.

Lemma completes_dec r : {completes r} + {~ completes r}.
Proof.
  unfold completes. destruct (scan_result r) as [s|e].
  - left. eauto.
  - right. intros [s Hs]. discriminate.
Qed.

Lemma addressed_completes r : addressed r = true -> completes r.
Proof.
  unfold addressed, completes.
  destruct (scan_result r) as [s|e]; [eauto | discriminate].
Qed.

Lemma filter_all {A} (f : A -> bool) l :
  Forall (fun x => f x = true) l -> filter f l = l.
Proof.
  induction 1 as [|x l Hx _ IH]; simpl; [reflexivity|].
  now rewrite Hx, IH.
Qed.

(** What the check emits, in terms of the scan. *)
Lemma check_emits E h results :
  final_ranked_answers h = Some results ->
  map_emitted (trace (check_and_send_map_message E h)) =
  match result (scan_loop results [] h) with
  | Ok locs => match results with
               | [] => false
               | _ => quorum (List.length locs) (List.length results)
               end
  | Raise _ => false
  end.
Proof.
  intros Hres. destruct results as [|r rs].
  - rewrite check_no_results by auto. reflexivity.
  - rewrite (check_scan E h (r :: rs) Hres) by discriminate.
    pose proof (scan_loop_logs (r :: rs) [] h) as Hlogs.
    destruct (scan_loop (r :: rs) [] h) as [[h' t] [locs|e]];
      unfold trace, result in *; cbn [fst snd] in *;
      rewrite map_emitted_app, (logs_emit_nothing _ Hlogs); cbn [orb].
    + apply map_events_emitted.
    + reflexivity.
Qed.

(** When every result of a non-empty list bears an address the map message
    is emitted; when none does, it is not, whether the scan goes through or
    raises. *)
Theorem map_for_all_and_for_none E h results :
  final_ranked_answers h = Some results ->
  (results <> [] ->
   Forall (fun r => addressed r = true) results ->
   map_emitted (trace (check_and_send_map_message E h)) = true)
  /\ (filter addressed results = [] ->
      map_emitted (trace (check_and_send_map_message E h)) = false).
Proof.
  intros Hres. rewrite (check_emits E h results Hres). split.
  - intros Hne Hall.
    assert (Hc : Forall completes results).
    { eapply Forall_impl; [|exact Hall]. apply addressed_completes. }
    rewrite (scan_loop_ok results [] h Hc). cbn [app].
    destruct results as [|r rs]; [congruence|].
    rewrite located_length, (filter_all _ _ Hall).
    apply quorum_spec. cbn [List.length]. lia.
  - intros Hnone.
    destruct (Forall_dec completes completes_dec results) as [Hc|Hc].
    + rewrite (scan_loop_ok results [] h Hc). cbn [app].
      rewrite located_length, Hnone.
      destruct results; reflexivity.
    + destruct (scan_loop_raise results [] h Hc) as [e ->]. reflexivity.
Qed.

Lemma map_for_all_and_for_none_witness :
  map_emitted (trace (check_and_send_map_message quiet_env
                        (sample_handler "none" [cafe; cafe; cafe]))) = true
  /\ map_emitted (trace (check_and_send_map_message quiet_env
                           (sample_handler "none" [page; PNone; notes]))) = false.
Proof.
  split.
  - apply (proj1 (map_for_all_and_for_none quiet_env
                    (sample_handler "none" [cafe; cafe; cafe]) [cafe; cafe; cafe]
                    eq_refl)).
    + discriminate.
    + repeat constructor.
  - apply (proj2 (map_for_all_and_for_none quiet_env
                    (sample_handler "none" [page; PNone; notes]) [page; PNone; notes]
                    eq_refl)).
    reflexivity.
Defined.

(** The trace of [SummarizeResults.do] when the handler has no ranked list. *)
Lemma summarize_no_list E h :
  final_ranked_answers h = None ->
  SummarizeResults_do E h = (h, [], Raise AttributeError).
Proof.
  intros Hl. unfold SummarizeResults_do, bind at 1, get. cbv iota beta.
  unfold bind at 1. rewrite Hl. reflexivity.
Qed.

(** [SummarizeResults.do] schedules no map message. *)
Lemma summarize_no_map E h :
  filter is_create_task (trace (SummarizeResults_do E h)) = [].
Proof.
  destruct (final_ranked_answers h) as [l|] eqn:Hl.
  - rewrite (summarize_start E h l Hl). cbv zeta.
    destruct (run_prompt E (truncated l h) SUMMARIZE_RESULTS_PROMPT_NAME 20)
      as [response|e]; [|reflexivity].
    destruct (truthy response); [|reflexivity].
    destruct (getitem_str response "summary") as [text|e]; [|reflexivity].
    destruct (send_message E (summarized text l h)
                (to_dict E (summary_msg_of text h))); reflexivity.
  - rewrite (summarize_no_list E h Hl). reflexivity.
Qed.

Lemma logs_no_task t : forallb is_log t = true -> filter is_create_task t = [].
Proof.
  induction t as [|ev t IH]; [reflexivity|].
  simpl. rewrite andb_true_iff. intros [Hev Ht].
  destruct ev; try discriminate. simpl. auto.
Qed.

Lemma check_tasks E h :
  (List.length (filter is_create_task
                  (trace (check_and_send_map_message E h))) <= 1)%nat.
Proof.
  destruct (final_ranked_answers h) as [[|r rs]|] eqn:Hres.
  - rewrite check_no_results by auto. cbn. lia.
  - rewrite (check_scan E h (r :: rs) Hres) by discriminate.
    pose proof (scan_loop_logs (r :: rs) [] h) as Hlogs.
    destruct (scan_loop (r :: rs) [] h) as [[h' t] [locs|e]];
      unfold trace in *; cbn [fst snd] in *;
      rewrite filter_app, (logs_no_task _ Hlogs); cbn [app].
    + unfold map_events. destruct (quorum _ _); [|cbn; lia].
      destruct (create_task E h (map_message locs)); cbn; lia.
    + cbn. lia.
  - rewrite check_no_results by auto. cbn. lia.
Qed.

(** One pass of the router schedules the map message at most once, whatever
    the results, the mode and the answers of the collaborators. *)
Theorem map_message_at_most_once E h :
  (List.length (filter is_create_task (trace (PostRanking_do E h))) <= 1)%nat.
Proof.
  destruct (connection_alive h) eqn:Halive.
  - rewrite (router_alive E h Halive).
    pose proof (check_tasks E h) as Hc.
    pose proof (summarize_no_map E h) as Hs.
    destruct (String.eqb (generate_mode h) "none"); [exact Hc|].
    destruct (String.eqb (generate_mode h) "summarize"); [|exact Hc].
    destruct (SummarizeResults_do E h) as [[h' t] r].
    unfold trace in *; cbn [fst snd] in *.
    rewrite filter_app, Hs, app_nil_r. exact Hc.
  - unfold PostRanking_do, bind, get, modify. rewrite Halive. cbn. lia.
Qed.

(** A map message that is scheduled carries the locations of the
    address-bearing results, in the order of the results, and there is at
    least one; it is scheduled on the handler as the check found it, after a
    scan that raised nothing. *)
Theorem map_message_content E h h' m :
  In (EvCreateTask h' m) (trace (check_and_send_map_message E h)) ->
  h' = h /\
  exists results,
    final_ranked_answers h = Some results /\
    Forall completes results /\
    m = map_message (located results) /\
    located results <> [].
Proof.
  assert (Hlog : forall t, forallb is_log t = true -> ~ In (EvCreateTask h' m) t).
  { induction t as [|ev t IH]; [auto|]. simpl. rewrite andb_true_iff.
    intros [Hev Ht] [Heq|Hin]; [subst ev; discriminate | now apply IH]. }
  destruct (final_ranked_answers h) as [[|r rs]|] eqn:Hres.
  - rewrite check_no_results by auto. intros [H|[]]. discriminate.
  - rewrite (check_scan E h (r :: rs) Hres) by discriminate.
    pose proof (scan_loop_logs (r :: rs) [] h) as Hlogs.
    destruct (Forall_dec completes completes_dec (r :: rs)) as [Hc|Hc].
    + pose proof (scan_loop_ok (r :: rs) [] h Hc) as Hok.
      destruct (scan_loop (r :: rs) [] h) as [[h1 t] o].
      unfold trace, result in *; cbn [fst snd] in *. subst o. cbn [app].
      intros Hin. apply in_app_or in Hin. destruct Hin as [Hin|Hin].
      { exfalso. exact (Hlog _ Hlogs Hin). }
      unfold map_events in Hin.
      destruct (quorum (List.length (located (r :: rs))) (List.length (r :: rs)))
        eqn:Hq.
      * destruct Hin as [H|[H|[H|[H|[H|[]]]]]]; try discriminate.
        -- injection H as <- <-. split; [reflexivity|].
           exists (r :: rs). repeat split; auto.
           intros Hnil. rewrite Hnil in Hq. discriminate.
        -- destruct (create_task E h (map_message (located (r :: rs))));
             discriminate.
      * destruct Hin as [H|[H|[]]]; discriminate.
    + destruct (scan_loop_raise (r :: rs) [] h Hc) as [e He].
      destruct (scan_loop (r :: rs) [] h) as [[h1 t] o].
      unfold trace, result in *; cbn [fst snd] in *. subst o.
      intros Hin. apply in_app_or in Hin. destruct Hin as [Hin|[H|[]]].
      * exfalso. exact (Hlog _ Hlogs Hin).
      * discriminate.
  - rewrite check_no_results by auto. intros [H|[]]. discriminate.
Qed.

Lemma map_message_content_witness :
  exists results,
    final_ranked_answers (sample_handler "none" [cafe; page]) = Some results /\
    Forall completes results /\
    map_message [PDict [("title", PStr "Cafe Uno"); ("address", PStr "1 Main St")]]
      = map_message (located results) /\
    located results <> [].
Proof.
  apply (proj2 (map_message_content quiet_env
                  (sample_handler "none" [cafe; page])
                  (sample_handler "none" [cafe; page])
                  (map_message [PDict [("title", PStr "Cafe Uno");
                                       ("address", PStr "1 Main St")]])
                  ltac:(vm_compute; tauto))).
Defined.

(** *** The locations *)

Lemma string_of_uint_nonempty d :
  DecimalString.NilZero.string_of_uint d <> EmptyString.
Proof. destruct d; discriminate. Qed.

Lemma str_truthy_nonempty v : truthy v = true -> str v <> EmptyString.
Proof.
  destruct v as [|b|z|s|l|d]; cbn [truthy str repr].
  - discriminate.
  - intros ->. discriminate.
  - intros _. unfold str_of_int.
    destruct (Z.to_int z) as [u|u]; cbn [DecimalString.NilZero.string_of_int].
    + apply string_of_uint_nonempty.
    + discriminate.
  - destruct s; [discriminate | intros _; discriminate].
  - intros _. discriminate.
  - intros _. discriminate.
Qed.

(** Every location that the scan appends comes from a result that is a
    mapping, has exactly the keys title and address, takes its title from
    the result's name ("Unnamed" when the key is missing, the value as it
    is otherwise, null included), and its address is a non-empty string. *)
Theorem location_shape result location :
  scan_result result = Ok (Located location) ->
  exists d address,
    result = PDict d /\
    address <> EmptyString /\
    location = PDict [("title", dict_get_default d "name" (PStr "Unnamed"));
                      ("address", PStr address)].
Proof.
  unfold scan_result. intros H.
  destruct result as [| | | |l|d]; try discriminate.
  - (* a string that holds the key raises on the subscript *)
    cbn [contains_str rbind] in H. destruct (str_in _ _); discriminate.
  - cbn [contains_str rbind] in H. destruct (existsb _ l); discriminate.
  - cbn [contains_str rbind] in H.
    destruct (has_key "schema_object" d); [|discriminate].
    cbn [negb] in H.
    destruct (getitem_str (PDict d) "schema_object") as [schema_obj|e];
      [|discriminate].
    cbn [rbind] in H.
    destruct (resolve_address schema_obj) as [address|e]; [|discriminate].
    cbn [rbind] in H.
    destruct (truthy address) eqn:Ht; [|discriminate].
    cbn [get_method rbind] in H. injection H as <-.
    exists d, (str address). repeat split.
    now apply str_truthy_nonempty.
Qed.

Lemma location_shape_witness :
  exists d address,
    cafe = PDict d /\
    address <> EmptyString /\
    PDict [("title", PStr "Cafe Uno"); ("address", PStr "1 Main St")] =
    PDict [("title", dict_get_default d "name" (PStr "Unnamed"));
           ("address", PStr address)].
Proof.
  apply (location_shape cafe
           (PDict [("title", PStr "Cafe Uno"); ("address", PStr "1 Main St")])
           eq_refl).
Defined.

(** *** Address resolution *)

Lemma flat_map_agree {A B} (f g : A -> list B) l :
  (forall x, In x l -> f x = g x) -> flat_map f l = flat_map g l.
Proof.
  induction l as [|x l IH]; intros H; [reflexivity|].
  cbn [flat_map]. rewrite (H x) by (left; reflexivity).
  rewrite IH; [reflexivity|]. intros y Hy. apply H. right. exact Hy.
Qed.

(** A structured address is rendered from what it holds under
    streetAddress, addressLocality, addressRegion, postalCode and
    addressCountry alone: two mappings that agree on these five keys, in
    whatever order and with whatever other keys, resolve alike. *)
Theorem structured_address_fields_only address address' :
  (forall k, In k ("addressCountry" :: address_fields) ->
             lookup k address = lookup k address') ->
  structured_address address = structured_address address'.
Proof.
  intros Hagree. unfold structured_address.
  rewrite !field_parts_spec. cbn [app].
  assert (Hfields :
    flat_map (fun field =>
                match lookup field address with
                | Some value => if is_dict value then [] else [PStr (str value)]
                | None => []
                end) address_fields =
    flat_map (fun field =>
                match lookup field address' with
                | Some value => if is_dict value then [] else [PStr (str value)]
                | None => []
                end) address_fields).
  { apply flat_map_agree. intros k Hk. rewrite (Hagree k); [reflexivity|].
    right. exact Hk. }
  rewrite Hfields. unfold country_parts.
  rewrite (Hagree "addressCountry") by (left; reflexivity). reflexivity.
Qed.

Lemma structured_address_fields_only_witness :
  structured_address [("addressLocality", PStr "Springfield");
                      ("streetAddress", PStr "1 Main St")]
  = structured_address [("@type", PStr "PostalAddress");
                        ("streetAddress", PStr "1 Main St");
                        ("addressLocality", PStr "Springfield")].
Proof.
  apply structured_address_fields_only.
  intros k [<-|[<-|[<-|[<-|[<-|[]]]]]]; reflexivity.
Defined.

Lemma before_is_prefix sep s : exists tail, s = (before sep s ++ tail)%string.
Proof.
  induction s as [|c s [tail IH]]; cbn [before].
  - exists EmptyString. reflexivity.
  - destruct (String.prefix sep (String c s)).
    + eexists. reflexivity.
    + exists tail. simpl. now rewrite <- IH.
Qed.

Lemma prefix_app p : forall b tail,
  String.prefix p b = true -> String.prefix p (b ++ tail) = true.
Proof.
  induction p as [|c p IH]; intros b tail H;
    [destruct (b ++ tail)%string; reflexivity|].
  destruct b as [|c' b]; [discriminate|]. simpl in H |- *.
  destruct (ascii_dec c c'); [auto | discriminate].
Qed.

(** What stands before the first separator holds no separator. *)
Lemma before_has_no_sep sep s :
  sep <> EmptyString -> str_in sep (before sep s) = false.
Proof.
  intros Hsep.
  assert (Hempty : str_in sep EmptyString = false).
  { destruct sep; [congruence | reflexivity]. }
  induction s as [|c s IH]; cbn [before]; [exact Hempty|].
  destruct (String.prefix sep (String c s)) eqn:Hp; [exact Hempty|].
  cbn [str_in]. rewrite IH, orb_false_r.
  destruct (String.prefix sep (String c (before sep s))) eqn:Hq; [|reflexivity].
  destruct (before_is_prefix sep s) as [tail Htail].
  apply (prefix_app _ _ tail) in Hq. simpl append in Hq.
  rewrite <- Htail in Hq. congruence.
Qed.

(** A string candidate that holds the marker resolves to a prefix of itself
    that holds no ", {": the whole string when it has no ", {" (so a brace
    elsewhere stays), and what stands before the first ", {" otherwise. *)
Theorem marker_cut schema_obj s :
  address_candidate schema_obj = PStr s ->
  str_in "{" s = true ->
  exists first,
    resolve_address (PDict schema_obj) = Ok (PStr first) /\
    str_in ", {" first = false /\
    (str_in ", {" s = false -> first = s) /\
    (str_in ", {" s = true -> exists tail, s = (first ++ ", {" ++ tail)%string).
Proof.
  intros Hcand Hmark. exists (before ", {" s).
  rewrite (resolve_string_candidate _ _ Hcand), Hmark.
  split; [reflexivity|]. split; [apply before_has_no_sep; discriminate|].
  destruct (before_spec ", {" s) as [Hyes Hno]. auto.
Qed.

Lemma marker_cut_witness :
  exists first,
    resolve_address (PDict [("address", PStr "5 Oak Rd {rear}, Town, {'@type': 'Place'}")])
      = Ok (PStr first) /\
    str_in ", {" first = false /\
    (str_in ", {" "5 Oak Rd {rear}, Town, {'@type': 'Place'}" = false ->
     first = "5 Oak Rd {rear}, Town, {'@type': 'Place'}") /\
    (str_in ", {" "5 Oak Rd {rear}, Town, {'@type': 'Place'}" = true ->
     exists tail,
       "5 Oak Rd {rear}, Town, {'@type': 'Place'}" = (first ++ ", {" ++ tail)%string).
Proof.
  apply (marker_cut [("address", PStr "5 Oak Rd {rear}, Town, {'@type': 'Place'}")]
                    "5 Oak Rd {rear}, Town, {'@type': 'Place'}"
                    eq_refl eq_refl).
Defined.

(** *** SummarizeResults.do off the successful path *)

(** An exception of the summarizer, and a truthy response from which the
    summary cannot be read (a mapping without the key raises [KeyError],
    anything that is not a mapping [TypeError]), are not handled: the
    exception is raised to the caller; the stored list is cut already, the
    transcript is as it was, nothing is sent and no completion is signalled. *)
Theorem summarize_failures_propagate E h l :
  final_ranked_answers h = Some l ->
  (forall e,
     run_prompt E (truncated l h) SUMMARIZE_RESULTS_PROMPT_NAME 20 = Raise e ->
     SummarizeResults_do E h =
       (truncated l h,
        [EvRunPrompt (truncated l h) SUMMARIZE_RESULTS_PROMPT_NAME 20], Raise e))
  /\ (forall response,
        run_prompt E (truncated l h) SUMMARIZE_RESULTS_PROMPT_NAME 20 = Ok response ->
        truthy response = true ->
        (forall d, response = PDict d -> lookup "summary" d = None) ->
        SummarizeResults_do E h =
          (truncated l h,
           [EvRunPrompt (truncated l h) SUMMARIZE_RESULTS_PROMPT_NAME 20],
           Raise (if is_dict response then KeyError else TypeError)))
  /\ messages (truncated l h) = messages h.
Proof.
  intros Hl. rewrite (summarize_start E h l Hl). cbv zeta.
  split; [|split; [|reflexivity]].
  - intros e ->. reflexivity.
  - intros response -> -> Hkey.
    destruct response as [| | | | |d]; try reflexivity.
    cbn [getitem_str is_dict]. now rewrite (Hkey d eq_refl).
Qed.

Lemma summarize_failures_propagate_witness :
  let E := mkEnv (create_task quiet_env)
                 (fun _ _ _ => Ok (PDict [("text", PStr "Two cafes.")]))
                 (send_message quiet_env) (precheck_step_done quiet_env)
                 (to_dict quiet_env) in
  let h := sample_handler "summarize" [cafe; page; page; notes] in
  SummarizeResults_do E h =
    (truncated [cafe; page; page; notes] h,
     [EvRunPrompt (truncated [cafe; page; page; notes] h)
                  SUMMARIZE_RESULTS_PROMPT_NAME 20],
     Raise KeyError).
Proof.
  cbv zeta.
  apply (proj1 (proj2 (summarize_failures_propagate
                         (mkEnv (create_task quiet_env)
                                (fun _ _ _ => Ok (PDict [("text", PStr "Two cafes.")]))
                                (send_message quiet_env)
                                (precheck_step_done quiet_env)
                                (to_dict quiet_env))
                         (sample_handler "summarize" [cafe; page; page; notes])
                         [cafe; page; page; notes] eq_refl))
               (PDict [("text", PStr "Two cafes.")]) eq_refl eq_refl).
  intros d [= <-]. reflexivity.
Defined.

(** Once a summary is read from the response, it is stored on the handler
    and the transcript ends with a message from the assistant, of type
    result, tagged with the handler's conversation identifier, whose content
    is that summary: whether or not the delivery and the completion signal
    then succeed. *)
Theorem summary_is_recorded E h l response text :
  final_ranked_answers h = Some l ->
  run_prompt E (truncated l h) SUMMARIZE_RESULTS_PROMPT_NAME 20 = Ok response ->
  truthy response = true ->
  getitem_str response "summary" = Ok text ->
  let h' := final (SummarizeResults_do E h) in
  summary h' = Some text /\
  messages h' =
    messages h ++
    [mkMessage ASSISTANT RESULT
               (PList [PDict [("@type", PStr "Summary"); ("content", text)]])
               (conversation_id h)].
Proof.
  intros Hl Hrun Htruthy Htext. cbv zeta.
  rewrite (summarize_start E h l Hl). cbv zeta.
  rewrite Hrun, Htruthy, Htext.
  destruct (send_message E (summarized text l h)
              (to_dict E (summary_msg_of text h))); split; reflexivity.
Qed.

Lemma summary_is_recorded_witness :
  let E := mkEnv (create_task quiet_env) (run_prompt quiet_env)
                 (fun _ _ => Some RuntimeError) (precheck_step_done quiet_env)
                 (to_dict quiet_env) in
  let h' := final (SummarizeResults_do E (sample_handler "summarize" [cafe])) in
  summary h' = Some (PStr "Two cafes downtown.") /\
  messages h' =
    [] ++
    [mkMessage ASSISTANT RESULT
               (PList [PDict [("@type", PStr "Summary");
                              ("content", PStr "Two cafes downtown.")]])
               (PStr "conv-1")].
Proof.
  cbv zeta.
  apply (summary_is_recorded
           (mkEnv (create_task quiet_env) (run_prompt quiet_env)
                  (fun _ _ => Some RuntimeError) (precheck_step_done quiet_env)
                  (to_dict quiet_env))
           (sample_handler "summarize" [cafe]) [cafe]
           (PDict [("summary", PStr "Two cafes downtown.")])
           (PStr "Two cafes downtown.") eq_refl eq_refl eq_refl eq_refl).
Defined.

(** The list that [SummarizeResults.do] leaves on the handler is a prefix of
    the list it found, of length three or of the full length when that is
    less: a list of at most three results stays as it was. *)
Theorem stored_list_is_cut E h l :
  final_ranked_answers h = Some l ->
  exists kept dropped,
    final_ranked_answers (final (SummarizeResults_do E h)) = Some kept /\
    l = kept ++ dropped /\
    List.length kept = Nat.min 3 (List.length l) /\
    ((List.length l <= 3)%nat -> kept = l).
Proof.
  intros Hl.
  destruct (summarize_shape E h l Hl) as [_ Hfin].
  exists (firstn 3 l), (skipn 3 l).
  split; [exact Hfin|]. split; [now rewrite firstn_skipn|].
  split; [apply length_firstn|].
  intros Hle. now apply firstn_all2.
Qed.

Lemma stored_list_is_cut_witness :
  exists kept dropped,
    final_ranked_answers
      (final (SummarizeResults_do quiet_env
                (sample_handler "summarize" [cafe; page]))) = Some kept /\
    [cafe; page] = kept ++ dropped /\
    List.length kept = Nat.min 3 (List.length [cafe; page]) /\
    ((List.length [cafe; page] <= 3)%nat -> kept = [cafe; page]).
Proof.
  apply (stored_list_is_cut quiet_env (sample_handler "summarize" [cafe; page])
                            [cafe; page] eq_refl).
Defined.

(** *** The router and the handler *)

(** Where [SummarizeResults.do] can leave the handler. *)
Lemma summarize_final E h :
  final (SummarizeResults_do E h) = h \/
  exists l, final_ranked_answers h = Some l /\
            (final (SummarizeResults_do E h) = truncated l h \/
             exists text, final (SummarizeResults_do E h) = summarized text l h).
Proof.
  destruct (final_ranked_answers h) as [l|] eqn:Hl.
  - right. exists l. split; [reflexivity|].
    rewrite (summarize_start E h l Hl). cbv zeta.
    destruct (run_prompt E (truncated l h) SUMMARIZE_RESULTS_PROMPT_NAME 20)
      as [response|e]; [|left; reflexivity].
    destruct (truthy response); [|left; reflexivity].
    destruct (getitem_str response "summary") as [text|e]; [|left; reflexivity].
    right. exists text.
    destruct (send_message E (summarized text l h)
                (to_dict E (summary_msg_of text h))); reflexivity.
  - left. rewrite (summarize_no_list E h Hl). reflexivity.
Qed.

Lemma router_final E h :
  (connection_alive h = false /\
   final (PostRanking_do E h) = set_query_done true h)
  \/ (connection_alive h = true /\
      (final (PostRanking_do E h) = h \/
       final (PostRanking_do E h) = final (SummarizeResults_do E h))).
Proof.
  destruct (connection_alive h) eqn:Halive.
  - right. split; [reflexivity|]. rewrite (router_alive E h Halive).
    destruct (String.eqb (generate_mode h) "none"); [left; reflexivity|].
    destruct (String.eqb (generate_mode h) "summarize"); [|left; reflexivity].
    right. destruct (SummarizeResults_do E h) as [[h' t] r]. reflexivity.
  - left. split; [reflexivity|].
    unfold PostRanking_do, bind, get, modify. rewrite Halive. reflexivity.
Qed.

(** Whatever the results, the mode and the answers of the collaborators,
    and whether the pass returns or raises, the router only ever appends to
    the transcript, and at most one message. *)
Theorem transcript_append_only E h :
  exists added,
    messages (final (PostRanking_do E h)) = messages h ++ added /\
    (List.length added <= 1)%nat.
Proof.
  destruct (router_final E h) as [[_ ->]|[_ [->| ->]]].
  - exists []. split; [now rewrite app_nil_r | cbn; lia].
  - exists []. split; [now rewrite app_nil_r | cbn; lia].
  - destruct (summarize_final E h) as [->|[l [_ [->|[text ->]]]]].
    + exists []. split; [now rewrite app_nil_r | cbn; lia].
    + exists []. split; [now rewrite app_nil_r | cbn; lia].
    + exists [summary_msg_of text h]. split; [reflexivity | cbn; lia].
Qed.

(** The router never changes the liveness flag, the mode or the conversation
    identifier, and it sets [query_done] exactly when it finds the
    connection dead: on a live connection the flag stays as it was. *)
Theorem router_frame E h :
  let h' := final (PostRanking_do E h) in
  connection_alive h' = connection_alive h /\
  generate_mode h' = generate_mode h /\
  conversation_id h' = conversation_id h /\
  query_done h' = (if connection_alive h then query_done h else true).
Proof.
  cbv zeta.
  destruct (router_final E h) as [[Hdead ->]|[Halive [->| ->]]].
  - cbn. rewrite Hdead. repeat split.
  - rewrite Halive. repeat split.
  - destruct (summarize_final E h) as [->|[l [_ [->|[text ->]]]]];
      cbn; rewrite Halive; repeat split.
Qed.

(** On a live connection in mode "summarize", a handler without the
    [final_ranked_answers] attribute passes the map check (which reads the
    attribute with a default and logs that there are no results) and then
    makes the router raise [AttributeError], with no other event. *)
Theorem router_without_ranked_list E h :
  connection_alive h = true ->
  generate_mode h = "summarize" ->
  final_ranked_answers h = None ->
  PostRanking_do E h = (h, [EvLog DEBUG NoResultsToCheck], Raise AttributeError).
Proof.
  intros Halive Hmode Hnone.
  rewrite (router_alive E h Halive), Hmode. cbn [String.eqb Ascii.eqb Bool.eqb].
  rewrite (summarize_no_list E h Hnone), check_no_results by auto.
  reflexivity.
Qed.

Lemma router_without_ranked_list_witness :
  let h := mkHandler true false "summarize" None None [] (PStr "conv-1") in
  PostRanking_do quiet_env h =
    (h, [EvLog DEBUG NoResultsToCheck], Raise AttributeError).
Proof.
  cbv zeta.
  apply (router_without_ranked_list quiet_env
           (mkHandler true false "summarize" None None [] (PStr "conv-1"))
           eq_refl eq_refl eq_refl).
Defined.

End PostRankingMore.

(* ===================================================================== *)
(** ** Further properties of the Google CSE client *)
(* ===================================================================== *)

Module GoogleCSEMore.
Import Py Eff GoogleCSE GoogleCSEProps.

(** *** Dictionaries under assignment and update *)

Lemma lookup_dict_set_same d : forall k v, lookup k (dict_set d k v) = Some v.
Proof.
  induction d as [|[k' v'] d IH]; intros k v; cbn [dict_set lookup].
  - now rewrite String.eqb_refl.
  - destruct (String.eqb k k') eqn:Hk; cbn [lookup]; rewrite Hk; auto.
Qed.

Lemma lookup_dict_set_other d : forall k k' v,
  k <> k' -> lookup k (dict_set d k' v) = lookup k d.
Proof.
  induction d as [|[k0 v0] d IH]; intros k k' v Hne; cbn [dict_set lookup].
  - apply String.eqb_neq in Hne. now rewrite Hne.
  - destruct (String.eqb k' k0) eqn:Hk; cbn [lookup].
    + apply String.eqb_eq in Hk. subst k0.
      apply String.eqb_neq in Hne. now rewrite Hne.
    + destruct (String.eqb k k0); auto.
Qed.

Lemma lookup_dict_update_none e : forall d k,
  lookup k e = None -> lookup k (dict_update d e) = lookup k d.
Proof.
  unfold dict_update.
  induction e as [|[k' v'] e IH]; intros d k Hk; cbn [fold_left fst snd].
  - reflexivity.
  - cbn [lookup] in Hk. destruct (String.eqb k k') eqn:Hkk; [discriminate|].
    rewrite (IH _ _ Hk). apply lookup_dict_set_other.
    now apply String.eqb_neq.
Qed.

Lemma lookup_not_in e : forall k, ~ In k (map fst e) -> lookup k e = None.
Proof.
  induction e as [|[k' v'] e IH]; intros k Hk; [reflexivity|].
  cbn [lookup]. destruct (String.eqb k k') eqn:Hkk.
  - apply String.eqb_eq in Hkk. subst. exfalso. apply Hk. left. reflexivity.
  - apply IH. intros Hin. apply Hk. right. exact Hin.
Qed.

Lemma lookup_dict_update_some e : forall d k v,
  NoDup (map fst e) -> lookup k e = Some v ->
  lookup k (dict_update d e) = Some v.
Proof.
  unfold dict_update.
  induction e as [|[k' v'] e IH]; intros d k v Hnd Hk; [discriminate|].
  cbn [fold_left fst snd]. cbn [lookup] in Hk.
  inversion Hnd as [|? ? Hnotin Hnd']; subst.
  destruct (String.eqb k k') eqn:Hkk.
  - apply String.eqb_eq in Hkk. subst k'. injection Hk as ->.
    fold (dict_update (dict_set d k v) e).
    rewrite lookup_dict_update_none by (now apply lookup_not_in).
    apply lookup_dict_set_same.
  - now apply IH.
Qed.

(** *** The request parameters *)

Lemma base_params self query site num_results :
  exists q,
    request_params self query site num_results [] =
      [("key", api_key self); ("cx", cx self); ("q", PStr q);
       ("num", PInt (Z.max 1 (Z.min num_results 10)))] /\
    q = if site_restricts site
        then match site with
             | PStr s => (query ++ " site:" ++ s)%string
             | _ => query
             end
        else query.
Proof.
  unfold request_params, site_restricts.
  destruct site as [| | |s| |]; try (eexists; split; reflexivity).
  cbn [truthy]. destruct (String.eqb s EmptyString); cbn [negb andb].
  - eexists; split; reflexivity.
  - destruct (String.eqb s "all"); eexists; split; reflexivity.
Qed.

Lemma request_params_kwargs self query site num_results kwargs :
  request_params self query site num_results kwargs =
  match dict_get_default kwargs "query_params" (PDict []) with
  | PDict query_params =>
      dict_update (request_params self query site num_results []) query_params
  | _ => request_params self query site num_results []
  end.
Proof.
  unfold request_params. cbn [dict_get_default lookup dict_update fold_left].
  reflexivity.
Qed.

(** A parameter that the caller's [query_params] does not name keeps the
    value [search] gave it. *)
Lemma request_params_kept self query site num_results kwargs k :
  (forall query_params,
     lookup "query_params" kwargs = Some (PDict query_params) ->
     lookup k query_params = None) ->
  lookup k (request_params self query site num_results kwargs) =
  lookup k (request_params self query site num_results []).
Proof.
  intros Hfree. rewrite request_params_kwargs. unfold dict_get_default.
  destruct (lookup "query_params" kwargs) as [[| | | | |qp]|] eqn:Hq;
    try reflexivity.
  apply lookup_dict_update_none. now apply Hfree.
Qed.

(** Unless the caller's [query_params] set it, the number of results asked
    of the service is the requested number brought into 1..10: itself when
    it lies there, 1 below (zero and negative numbers included), 10 above. *)
Theorem num_is_clamped self query site num_results kwargs :
  (forall query_params,
     lookup "query_params" kwargs = Some (PDict query_params) ->
     lookup "num" query_params = None) ->
  exists num,
    lookup "num" (request_params self query site num_results kwargs)
      = Some (PInt num) /\
    (1 <= num <= 10)%Z /\
    ((1 <= num_results <= 10)%Z -> num = num_results) /\
    ((num_results < 1)%Z -> num = 1%Z) /\
    ((10 < num_results)%Z -> num = 10%Z).
Proof.
  intros Hfree. rewrite (request_params_kept _ _ _ _ _ _ Hfree).
  destruct (base_params self query site num_results) as [q [-> _]].
  exists (Z.max 1 (Z.min num_results 10)).
  split; [reflexivity|]. lia.
Qed.

Lemma num_is_clamped_witness :
  exists num,
    lookup "num" (request_params sample_client "pizza" (PStr "all") 50
                    [("query_params", PDict [("hl", PStr "en")])])
      = Some (PInt num) /\
    (1 <= num <= 10)%Z /\
    ((1 <= 50 <= 10)%Z -> num = 50%Z) /\
    ((50 < 1)%Z -> num = 1%Z) /\
    ((10 < 50)%Z -> num = 10%Z).
Proof.
  apply (num_is_clamped sample_client "pizza" (PStr "all") 50
           [("query_params", PDict [("hl", PStr "en")])]).
  intros qp [= <-]. reflexivity.
Defined.

(** Unless the caller's [query_params] set it, the query sent is the
    caller's query, followed by " site:" and the site when the site filter
    is a non-empty string other than "all"; a filter that is empty, "all",
    null or a list of sites leaves the query as it is. *)
Theorem query_is_restricted_by_site self query site num_results kwargs :
  (forall query_params,
     lookup "query_params" kwargs = Some (PDict query_params) ->
     lookup "q" query_params = None) ->
  lookup "q" (request_params self query site num_results kwargs) =
  Some (PStr (if site_restricts site
              then match site with
                   | PStr s => (query ++ " site:" ++ s)%string
                   | _ => query
                   end
              else query)).
Proof.
  intros Hfree. rewrite (request_params_kept _ _ _ _ _ _ Hfree).
  destruct (base_params self query site num_results) as [q [-> ->]].
  reflexivity.
Qed.

Lemma query_is_restricted_by_site_witness :
  lookup "q" (request_params sample_client "pizza" (PStr "example.org") 5 [])
    = Some (PStr "pizza site:example.org")
  /\ lookup "q" (request_params sample_client "pizza"
                   (PList [PStr "example.org"; PStr "example.com"]) 5 [])
     = Some (PStr "pizza").
Proof.
  split.
  - apply (query_is_restricted_by_site sample_client "pizza"
             (PStr "example.org") 5 []).
    intros qp H. discriminate H.
  - apply (query_is_restricted_by_site sample_client "pizza"
             (PList [PStr "example.org"; PStr "example.com"]) 5 []).
    intros qp H. discriminate H.
Defined.

(** Every parameter that the caller's [query_params] mapping names is sent
    with the caller's value: the key, the engine identifier, the query and
    the number of results that [search] computed can all be replaced, and
    parameters of the caller's own are added. *)
Theorem query_params_override self query site num_results kwargs query_params :
  lookup "query_params" kwargs = Some (PDict query_params) ->
  NoDup (map fst query_params) ->
  forall k v,
    lookup k query_params = Some v ->
    lookup k (request_params self query site num_results kwargs) = Some v.
Proof.
  intros Hq Hnd k v Hk. rewrite request_params_kwargs.
  unfold dict_get_default. rewrite Hq.
  now apply lookup_dict_update_some.
Qed.

Lemma query_params_override_witness :
  lookup "num" (request_params sample_client "pizza" (PStr "all") 5
                  [("query_params", PDict [("num", PInt 50); ("hl", PStr "en")])])
  = Some (PInt 50).
Proof.
  apply (query_params_override sample_client "pizza" (PStr "all") 5
           [("query_params", PDict [("num", PInt 50); ("hl", PStr "en")])]
           [("num", PInt 50); ("hl", PStr "en")] eq_refl).
  - repeat constructor; simpl; intuition discriminate.
  - reflexivity.
Defined.

(** *** The rows *)

Lemma item_row_dict E d :
  item_row E (PDict d) tt =
  (tt, [EvPrintResult (dict_get_default d "link" (PStr EmptyString))
                      (dict_get_default d "title" (PStr EmptyString))],
   Ok (row_of E d)).
Proof. reflexivity. Qed.

Lemma item_rows_dicts E ds : forall acc,
  result (item_rows E (map PDict ds) acc tt) = Ok (acc ++ map (row_of E) ds).
Proof.
  induction ds as [|d ds IH]; intros acc.
  - cbn. now rewrite app_nil_r.
  - cbn [map item_rows]. unfold bind. rewrite item_row_dict.
    specialize (IH (acc ++ [row_of E d])).
    destruct (item_rows E (map PDict ds) (acc ++ [row_of E d]) tt) as [[u t] r].
    unfold result in *; cbn [snd] in *. rewrite IH, <- app_assoc. reflexivity.
Qed.

(** When the service answers a mapping whose items, cut to the requested
    number, are mappings, [search] returns one row per item, in the order
    of the items: the link, the JSON text of the WebPage object, the title
    and the domain of the link.  An answer without items gives no row. *)
Theorem search_rows E self query site num_results kwargs answer items shown :
  fetched_data E self (request_params self query site num_results kwargs)
    = Ok (PDict answer) ->
  dict_get_default answer "items" (PList []) = PList items ->
  slice_to items num_results = map PDict shown ->
  result (search E self query site num_results kwargs tt)
    = Ok (map (row_of E) shown).
Proof.
  intros Hfetch Hitems Hshown.
  rewrite search_run. cbv zeta. rewrite Hfetch.
  unfold result at 1; cbn [snd].
  unfold collect, bind at 1, lift at 1. cbn [get_method]. rewrite Hitems.
  unfold bind at 1, lift at 1. cbn [len].
  unfold bind at 1, emit at 1. unfold bind at 1, lift at 1.
  cbn [sliced]. rewrite Hshown.
  pose proof (item_rows_dicts E shown []) as Hrows.
  destruct (item_rows E (map PDict shown) [] tt) as [[u t] r].
  exact Hrows.
Qed.

Lemma search_rows_witness :
  result (search up_env sample_client "pizza" (PStr "all") 5 [] tt)
  = Ok (map (row_of up_env)
            [[("link", PStr "https://www.example.org/a"); ("title", PStr "A")]]).
Proof.
  apply (search_rows up_env sample_client "pizza" (PStr "all") 5 []
           [("items", PList [PDict [("link", PStr "https://www.example.org/a");
                                    ("title", PStr "A")]])]
           [PDict [("link", PStr "https://www.example.org/a"); ("title", PStr "A")]]
           [[("link", PStr "https://www.example.org/a"); ("title", PStr "A")]]
           eq_refl eq_refl eq_refl).
Defined.

Lemma item_row_width E it row :
  result (item_row E it tt) = Ok row -> List.length row = 4%nat.
Proof.
  unfold item_row, bind, lift, emit, ret.
  destruct (get_method it "link" (PStr EmptyString)); [|discriminate].
  destruct (get_method it "title" (PStr EmptyString)); [|discriminate].
  destruct (get_method it "snippet" (PStr EmptyString)); [|discriminate].
  destruct (get_method it "displayLink" PNone); [|discriminate].
  intros [= <-]. reflexivity.
Qed.

Lemma item_rows_ok E items : forall acc rows,
  result (item_rows E items acc tt) = Ok rows ->
  exists new,
    rows = acc ++ new /\
    List.length new = List.length items /\
    Forall (fun row => List.length row = 4%nat) new.
Proof.
  induction items as [|it items IH]; intros acc rows.
  - cbn. intros [= <-]. exists []. rewrite app_nil_r. auto.
  - cbn [item_rows]. unfold bind.
    pose proof (item_row_width E it) as Hw.
    destruct (item_row E it tt) as [[[] t1] [row|e]]; [|discriminate].
    specialize (Hw row eq_refl). specialize (IH (acc ++ [row]) rows).
    destruct (item_rows E items (acc ++ [row]) tt) as [[[] t2] r2].
    unfold result in *; cbn [snd] in *. intros H.
    destruct (IH H) as [new [-> [Hlen Hall]]].
    exists (row :: new). rewrite <- app_assoc. cbn [app List.length].
    split; [reflexivity|]. split; [now rewrite Hlen|]. now constructor.
Qed.

Lemma sliced_length v n shown :
  sliced v n = Ok shown -> (0 <= n)%Z ->
  (List.length shown <= Z.to_nat n)%nat.
Proof.
  intros H Hn. unfold sliced, slice_to in H.
  apply Z.leb_le in Hn. rewrite Hn in H.
  destruct v; try discriminate; injection H as <-.
  - rewrite length_map, length_firstn. lia.
  - rewrite length_firstn. lia.
Qed.

(** Whenever [search] returns, every row has four entries and, for a
    requested number that is not negative, there are at most that many
    rows. *)
Theorem rows_shape E self query site num_results kwargs rows :
  result (search E self query site num_results kwargs tt) = Ok rows ->
  Forall (fun row => List.length row = 4%nat) rows /\
  ((0 <= num_results)%Z -> (List.length rows <= Z.to_nat num_results)%nat).
Proof.
  rewrite search_run. cbv zeta.
  destruct (fetched_data E self _) as [data|e].
  - unfold result at 1; cbn [snd].
    unfold collect, bind at 1, lift at 1.
    destruct (get_method data "items" (PList [])) as [items|e]; [|discriminate].
    unfold bind at 1, lift at 1.
    destruct (len items) as [count|e]; [|discriminate].
    unfold bind at 1, emit at 1. unfold bind at 1, lift at 1.
    destruct (sliced items num_results) as [shown|e] eqn:Hs; [|discriminate].
    pose proof (item_rows_ok E shown [] rows) as Hrows.
    destruct (item_rows E shown [] tt) as [[[] t] r].
    unfold result in *; cbn [snd] in *. intros H.
    destruct (Hrows H) as [new [-> [Hlen Hall]]]. cbn [app].
    split; [exact Hall|]. intros Hn. rewrite Hlen.
    exact (sliced_length _ _ _ Hs Hn).
  - intros [= <-]. split; [constructor | cbn; lia].
Qed.

Lemma rows_shape_witness :
  Forall (fun row => List.length row = 4%nat)
         [[PStr "https://www.example.org/a"; PStr "{}"; PStr "A"; PStr "example.org"]]
  /\ ((0 <= 5)%Z ->
      (List.length
         [[PStr "https://www.example.org/a"; PStr "{}"; PStr "A"; PStr "example.org"]]
       <= Z.to_nat 5)%nat).
Proof.
  apply (rows_shape up_env sample_client "pizza" (PStr "all") 5 []
           [[PStr "https://www.example.org/a"; PStr "{}"; PStr "A";
             PStr "example.org"]] eq_refl).
Defined.

(** The empty result of a failed request is kept for failures of the
    request: a decoded answer that is not a mapping (a JSON array, string,
    number or null) makes [search] raise [AttributeError], after the one
    request, instead of returning the empty list. *)
Theorem malformed_answer_raises E self query site num_results kwargs data :
  fetched_data E self (request_params self query site num_results kwargs)
    = Ok data ->
  is_dict data = false ->
  search E self query site num_results kwargs tt =
    (tt,
     [EvInfo (SearchCall query site num_results);
      EvGet (api_endpoint self)
            (request_params self query site num_results kwargs) 30],
     Raise AttributeError).
Proof.
  intros Hfetch Hdata. rewrite search_run. cbv zeta. rewrite Hfetch.
  destruct data; try discriminate; reflexivity.
Qed.

Lemma malformed_answer_raises_witness :
  let E := mkEnv (fun _ _ _ => Ok (mkResponse None (Ok (PList []))))
                 (netloc up_env) (dumps up_env) in
  result (search E sample_client "pizza" (PStr "all") 5 [] tt)
  = Raise AttributeError.
Proof.
  cbv zeta.
  exact (f_equal result
           (malformed_answer_raises
              (mkEnv (fun _ _ _ => Ok (mkResponse None (Ok (PList []))))
                     (netloc up_env) (dumps up_env))
              sample_client "pizza" (PStr "all") 5 [] (PList [])
              eq_refl eq_refl)).
Defined.

(** A negative requested number is not refused: the service is asked for
    one result, and of the items it answers all but the last ones, as many
    as the number is below zero, are returned (none when there are not more
    items than that). *)
Theorem negative_count_drops_from_end
    E self query site num_results answer items shown :
  (num_results < 0)%Z ->
  fetched_data E self (request_params self query site num_results [])
    = Ok (PDict answer) ->
  dict_get_default answer "items" (PList []) = PList items ->
  firstn (List.length items - Z.to_nat (- num_results)) items = map PDict shown ->
  lookup "num" (request_params self query site num_results []) = Some (PInt 1) /\
  result (search E self query site num_results [] tt) = Ok (map (row_of E) shown) /\
  List.length shown = (List.length items - Z.to_nat (- num_results))%nat.
Proof.
  intros Hneg Hfetch Hitems Hshown.
  assert (Hslice : slice_to items num_results = map PDict shown).
  { unfold slice_to. destruct (0 <=? num_results)%Z eqn:Hle; [|exact Hshown].
    apply Z.leb_le in Hle. lia. }
  split; [|split].
  - destruct (base_params self query site num_results) as [q [-> _]].
    cbn [lookup String.eqb Ascii.eqb Bool.eqb]. do 2 f_equal. lia.
  - rewrite search_run. cbv zeta. rewrite Hfetch.
    unfold result at 1; cbn [snd].
    unfold collect, bind at 1, lift at 1. cbn [get_method]. rewrite Hitems.
    unfold bind at 1, lift at 1. cbn [len].
    unfold bind at 1, emit at 1. unfold bind at 1, lift at 1.
    cbn [sliced]. rewrite Hslice.
    pose proof (item_rows_dicts E shown []) as Hrows.
    destruct (item_rows E (map PDict shown) [] tt) as [[u t] r].
    exact Hrows.
  - apply (f_equal (@List.length pyval)) in Hshown.
    rewrite length_map, length_firstn in Hshown. lia.
Qed.

Lemma negative_count_drops_from_end_witness :
  let E := mkEnv (fun _ _ _ =>
                    Ok (mkResponse None
                          (Ok (PDict [("items",
                                       PList [PDict [("link", PStr "https://a.example")];
                                              PDict [("link", PStr "https://b.example")];
                                              PDict [("link", PStr "https://c.example")]])]))))
                 (netloc up_env) (dumps up_env) in
  lookup "num" (request_params sample_client "pizza" (PStr "all") (-1) [])
    = Some (PInt 1) /\
  result (search E sample_client "pizza" (PStr "all") (-1) [] tt)
    = Ok (map (row_of E) [[("link", PStr "https://a.example")];
                          [("link", PStr "https://b.example")]]) /\
  List.length [[("link", PStr "https://a.example")];
               [("link", PStr "https://b.example")]] = (3 - Z.to_nat (- (-1)))%nat.
Proof.
  cbv zeta.
  apply (negative_count_drops_from_end
           (mkEnv (fun _ _ _ =>
                     Ok (mkResponse None
                           (Ok (PDict [("items",
                                        PList [PDict [("link", PStr "https://a.example")];
                                               PDict [("link", PStr "https://b.example")];
                                               PDict [("link", PStr "https://c.example")]])]))))
                  (netloc up_env) (dumps up_env))
           sample_client "pizza" (PStr "all") (-1)
           [("items", PList [PDict [("link", PStr "https://a.example")];
                             PDict [("link", PStr "https://b.example")];
                             PDict [("link", PStr "https://c.example")]])]
           [PDict [("link", PStr "https://a.example")];
            PDict [("link", PStr "https://b.example")];
            PDict [("link", PStr "https://c.example")]]
           [[("link", PStr "https://a.example")];
            [("link", PStr "https://b.example")]]);
    [lia | reflexivity | reflexivity | reflexivity].
Defined.

(** *** The domain of a link *)

Lemma substring_whole s : String.substring 0 (String.length s) s = s.
Proof. induction s as [|c s IH]; simpl; [reflexivity | now rewrite IH]. Qed.

(** The domain of a link is "unknown" when the link does not parse or has no
    network location, the network location without its first "www." when it
    starts with one (so what is left may be empty, or start with "www."
    again), and the network location as it is otherwise. *)
Theorem extract_domain_cases E url :
  (forall e, netloc E url = Raise e -> _extract_domain_from_url E url = "unknown")
  /\ (netloc E url = Ok EmptyString -> _extract_domain_from_url E url = "unknown")
  /\ (forall rest,
        netloc E url = Ok ("www." ++ rest)%string ->
        _extract_domain_from_url E url = rest)
  /\ (forall host,
        netloc E url = Ok host ->
        host <> EmptyString ->
        startswith host "www." = false ->
        _extract_domain_from_url E url = host).
Proof.
  unfold _extract_domain_from_url. split; [|split; [|split]].
  - intros e ->. reflexivity.
  - intros ->. reflexivity.
  - intros rest ->. cbn [append String.eqb].
    change (startswith (String "w" (String "w" (String "w" (String "." rest)))) "www.")
      with (String.prefix "www." (String "w" (String "w" (String "w" (String "." rest))))).
    assert (Hp : String.prefix "www."
                   (String "w" (String "w" (String "w" (String "." rest)))) = true).
    { simpl. destruct rest; reflexivity. }
    rewrite Hp. cbn [String.length Nat.sub String.substring].
    rewrite Nat.sub_0_r. apply substring_whole.
  - intros host -> Hne Hwww. apply String.eqb_neq in Hne. now rewrite Hne, Hwww.
Qed.

Lemma extract_domain_cases_witness :
  _extract_domain_from_url down_env (PStr "https://example.org/a") = "example.org"
  /\ _extract_domain_from_url up_env (PStr "https://www.example.org/a") = "example.org".
Proof.
  split.
  - apply (proj2 (proj2 (proj2 (extract_domain_cases down_env
                                  (PStr "https://example.org/a"))))
             "example.org" eq_refl).
    + discriminate.
    + reflexivity.
  - apply (proj1 (proj2 (proj2 (extract_domain_cases up_env
                                  (PStr "https://www.example.org/a"))))
             "example.org" eq_refl).
Defined.

(** *** search_by_url *)

Lemma search_by_url_run E self url kwargs :
  existsb (fun name => has_key name kwargs) bound_by_search_by_url = false ->
  search_by_url E self url kwargs tt =
  match search E self url (PStr "all") 1 kwargs tt with
  | (u, t, Ok []) => (u, t, Ok None)
  | (u, t, Ok ([] :: _)) => (u, t, Raise IndexError)
  | (u, t, Ok ((PStr link :: rest) :: _)) =>
      (u, t, if String.eqb (rstrip_char "/" link) (rstrip_char "/" url)
             then Ok (Some (PStr link :: rest)) else Ok None)
  | (u, t, Ok ((_ :: _) :: _)) => (u, t, Raise AttributeError)
  | (u, t, Raise e) => (u, t, Raise e)
  end.
Proof.
  intros Hfree. unfold search_by_url. rewrite Hfree. unfold bind.
  destruct (search E self url (PStr "all") 1 kwargs tt) as [[u t] [rows|e]];
    [|reflexivity].
  destruct rows as [|[|link rest] more]; unfold ret, raise;
    try (now rewrite app_nil_r).
  destruct link; try (now rewrite app_nil_r).
  destruct (String.eqb _ _); now rewrite app_nil_r.
Qed.

(** A row that [search_by_url] returns is the first row of the search for
    the URL over all sites with one result requested, and its link is a
    string equal to the URL once the slashes at the end of both are left
    off. *)
Theorem search_by_url_match E self url kwargs row :
  result (search_by_url E self url kwargs tt) = Ok (Some row) ->
  exists link rest more,
    row = PStr link :: rest /\
    rstrip_char "/" link = rstrip_char "/" url /\
    result (search E self url (PStr "all") 1 kwargs tt) = Ok (row :: more).
Proof.
  destruct (existsb (fun name => has_key name kwargs) bound_by_search_by_url)
    eqn:Hfree.
  - unfold search_by_url. rewrite Hfree. discriminate.
  - rewrite (search_by_url_run E self url kwargs Hfree).
    destruct (search E self url (PStr "all") 1 kwargs tt) as [[u t] [rows|e]];
      [|discriminate].
    destruct rows as [|[|link rest] more]; try discriminate.
    destruct link as [| | |s| |]; try discriminate.
    unfold result; cbn [snd].
    destruct (String.eqb (rstrip_char "/" s) (rstrip_char "/" url)) eqn:Heq;
      [|discriminate].
    intros [= <-]. exists s, rest, more.
    apply String.eqb_eq in Heq. auto.
Qed.

Lemma search_by_url_match_witness :
  exists link rest more,
    [PStr "https://www.example.org/a"; PStr "{}"; PStr "A"; PStr "example.org"]
      = PStr link :: rest /\
    rstrip_char "/" link = rstrip_char "/" "https://www.example.org/a//" /\
    result (search up_env sample_client "https://www.example.org/a//"
              (PStr "all") 1 [] tt)
      = Ok ([PStr "https://www.example.org/a"; PStr "{}"; PStr "A";
             PStr "example.org"] :: more).
Proof.
  apply (search_by_url_match up_env sample_client
           "https://www.example.org/a//" []
           [PStr "https://www.example.org/a"; PStr "{}"; PStr "A";
            PStr "example.org"] eq_refl).
Defined.

(** [search_by_url] makes the one request of a search for the URL over all
    sites with one result requested, and when that request fails it returns
    null instead of raising; a keyword argument named query, site or
    num_results is a [TypeError] before any request. *)
Theorem search_by_url_request E self url kwargs :
  let params := request_params self url (PStr "all") 1 kwargs in
  (existsb (fun name => has_key name kwargs) bound_by_search_by_url = true ->
   search_by_url E self url kwargs tt = (tt, [], Raise TypeError))
  /\ (existsb (fun name => has_key name kwargs) bound_by_search_by_url = false ->
      requests (trace (search_by_url E self url kwargs tt))
        = [(api_endpoint self, params, 30%Q)] /\
      (forall e, fetched_data E self params = Raise e ->
                 result (search_by_url E self url kwargs tt) = Ok None)).
Proof.
  cbv zeta. split.
  - intros Hbound. unfold search_by_url. rewrite Hbound. reflexivity.
  - intros Hfree. rewrite (search_by_url_run E self url kwargs Hfree).
    rewrite search_run. cbv zeta.
    destruct (fetched_data E self _) as [data|e].
    + split; [|discriminate].
      pose proof (collect_requests E data 1) as Hc.
      destruct (collect E data 1 tt) as [[[] t] r].
      unfold trace, result in *; cbn [fst snd] in *.
      assert (Hreq : requests
                (EvInfo (SearchCall url (PStr "all") 1)
                 :: EvGet (api_endpoint self)
                      (request_params self url (PStr "all") 1 kwargs) 30 :: t)
              = [(api_endpoint self,
                  request_params self url (PStr "all") 1 kwargs, 30%Q)]).
      { cbn [requests flat_map app]. fold (requests t). now rewrite Hc. }
      destruct r as [[|[|[| | |s| |] rest] more]|e']; cbn [app]; exact Hreq.
    + split; [|reflexivity].
      unfold failure_record. destruct (is_http_error e); reflexivity.
Qed.

Lemma search_by_url_request_witness :
  search_by_url up_env sample_client "https://example.org"
                [("num_results", PInt 3)] tt = (tt, [], Raise TypeError)
  /\ result (search_by_url down_env sample_client "https://example.org" [] tt)
     = Ok None.
Proof.
  split.
  - apply (proj1 (search_by_url_request up_env sample_client
                    "https://example.org" [("num_results", PInt 3)])).
    reflexivity.
  - apply (proj2 (proj2 (search_by_url_request down_env sample_client
                           "https://example.org" []) eq_refl) HTTPError).
    reflexivity.
Defined.

(** *** The constructor *)

Lemma truthy_py_or a b : truthy (py_or a b) = truthy a || truthy b.
Proof. unfold py_or. destruct (truthy a) eqn:Ha; [exact Ha | reflexivity]. Qed.

Lemma find_by_name name (cfgs : list (string * endpoint_config)) n cfg :
  find (fun entry => String.eqb name (fst entry)) cfgs = Some (n, cfg) ->
  n = name /\ In (name, cfg) cfgs.
Proof.
  intros H. destruct (find_some _ _ H) as [Hin Heq].
  cbn [fst] in Heq. apply String.eqb_eq in Heq. subst n. auto.
Qed.

(** The constructor succeeds exactly when the endpoint, looked up under the
    given name or under "google_custom_search" when the name is null or
    empty, is configured with a truthy API key and a truthy engine
    identifier under one of cx, custom_search_engine_id, index_name; it
    raises [ValueError], and nothing else, otherwise. *)
Theorem init_succeeds_iff retrieval_endpoints endpoint_name :
  ((exists client record,
       __init__ retrieval_endpoints endpoint_name = Ok (client, record)) <->
   (exists n cfg,
       find (fun entry => String.eqb (configured_name endpoint_name) (fst entry))
            retrieval_endpoints = Some (n, cfg) /\
       truthy (cfg_api_key cfg) = true /\
       (truthy (cfg_cx cfg) = true \/
        truthy (cfg_custom_search_engine_id cfg) = true \/
        truthy (cfg_index_name cfg) = true)))
  /\ (forall e, __init__ retrieval_endpoints endpoint_name = Raise e ->
                e = ValueError).
Proof.
  unfold __init__. fold (configured_name endpoint_name).
  destruct (find _ retrieval_endpoints) as [[n cfg]|].
  - destruct (truthy (cfg_api_key cfg)) eqn:Hkey; cbn [negb].
    + rewrite !truthy_py_or.
      destruct (truthy (cfg_cx cfg)) eqn:Hcx; cbn [orb negb].
      * split; [|discriminate]. split; [|eauto].
        intros _. exists n, cfg. auto.
      * destruct (truthy (cfg_custom_search_engine_id cfg)) eqn:Hcse;
          cbn [orb negb].
        -- split; [|discriminate]. split; [|eauto].
           intros _. exists n, cfg. auto.
        -- destruct (truthy (cfg_index_name cfg)) eqn:Hidx; cbn [negb].
           ++ split; [|discriminate]. split; [|eauto].
              intros _. exists n, cfg. auto.
           ++ split; [|now intros e [= <-]]. split.
              ** intros (c & r & H). discriminate.
              ** intros (n' & cfg' & [= <- <-] & _ & [H|[H|H]]); congruence.
    + split; [|now intros e [= <-]]. split.
      * intros (c & r & H). discriminate.
      * intros (n' & cfg' & [= <- <-] & H & _). congruence.
  - split; [|now intros e [= <-]]. split.
    + intros (c & r & H). discriminate.
    + intros (n' & cfg' & H & _). discriminate.
Qed.

(** A client that the constructor returns is looked up under the configured
    name, has a truthy API key, taken from the configuration, a truthy
    engine identifier, which is the first truthy of cx,
    custom_search_engine_id and index_name, and a non-empty service address,
    the configured one or the default; and the record the constructor logs
    holds the API key as it is. *)
Theorem constructed_client_is_usable retrieval_endpoints endpoint_name client record :
  __init__ retrieval_endpoints endpoint_name = Ok (client, record) ->
  GoogleCSE.endpoint_name client = configured_name endpoint_name /\
  truthy (api_key client) = true /\
  truthy (cx client) = true /\
  api_endpoint client <> EmptyString /\
  record = Initialized (GoogleCSE.endpoint_name client) (api_key client) (cx client) /\
  exists cfg,
    In (GoogleCSE.endpoint_name client, cfg) retrieval_endpoints /\
    api_key client = cfg_api_key cfg /\
    cx client = py_or (py_or (cfg_cx cfg) (cfg_custom_search_engine_id cfg))
                      (cfg_index_name cfg) /\
    (api_endpoint client = DEFAULT_API_ENDPOINT \/
     cfg_api_endpoint cfg = Some (api_endpoint client)).
Proof.
  unfold __init__. fold (configured_name endpoint_name).
  destruct (find _ retrieval_endpoints) as [[n cfg]|] eqn:Hfind; [|discriminate].
  destruct (find_by_name _ _ _ _ Hfind) as [-> Hin].
  destruct (truthy (cfg_api_key cfg)) eqn:Hkey; cbn [negb]; [|discriminate].
  destruct (truthy (py_or (py_or (cfg_cx cfg) (cfg_custom_search_engine_id cfg))
                          (cfg_index_name cfg))) eqn:Hcx; cbn [negb];
    [|discriminate].
  intros [= <- <-]. cbn [GoogleCSE.endpoint_name api_key cx api_endpoint].
  repeat (split; [solve [auto]|]).
  split.
  - destruct (cfg_api_endpoint cfg) as [url|]; [|discriminate].
    destruct (String.eqb url EmptyString) eqn:Hurl; [discriminate|].
    now apply String.eqb_neq.
  - split; [reflexivity|]. exists cfg. repeat (split; [solve [auto]|]).
    destruct (cfg_api_endpoint cfg) as [url|]; [|left; reflexivity].
    destruct (String.eqb url EmptyString); [left | right]; reflexivity.
Qed.

Lemma init_succeeds_iff_witness :
  (exists client record, __init__ sample_endpoints (Some "cse_by_index")
                         = Ok (client, record))
  /\ __init__ sample_endpoints (Some "cse_without_key") = Raise ValueError.
Proof.
  split.
  - apply (proj1 (init_succeeds_iff sample_endpoints (Some "cse_by_index"))).
    eexists _, _. split; [reflexivity|]. split; [reflexivity|].
    right. right. reflexivity.
  - destruct (__init__ sample_endpoints (Some "cse_without_key")) as [[c r]|e] eqn:H.
    + discriminate H.
    + now rewrite (proj2 (init_succeeds_iff sample_endpoints
                            (Some "cse_without_key")) e H).
Defined.

Lemma constructed_client_is_usable_witness :
  let client := mkClient "cse_by_index" (PStr "k-123") (PStr "cx-789")
                         "https://cse.example.org/v1" in
  truthy (api_key client) = true /\
  truthy (cx client) = true /\
  api_endpoint client <> EmptyString.
Proof.
  cbv zeta.
  destruct (constructed_client_is_usable sample_endpoints (Some "cse_by_index")
              (mkClient "cse_by_index" (PStr "k-123") (PStr "cx-789")
                        "https://cse.example.org/v1")
              (Initialized "cse_by_index" (PStr "k-123") (PStr "cx-789"))
              eq_refl) as (_ & Hkey & Hcx & Hurl & _).
  split; [exact Hkey|]. split; [exact Hcx | exact Hurl].
Defined.

End GoogleCSEMore.
